(** * Board simulation of the lane game (Game.cpp)

    A shallow embedding of the stateful part of [Game.cpp]: the constructor's
    board set-up (lines 220-248), [Game::handle_event] (lines 264-281) and
    [Game::update] (lines 283-376); then of the index of meshes the
    constructor builds (lines 148-180) and of the sequence of calls
    [Game::draw] makes (lines 431-492).  The OpenGL calls, the shaders, the
    reading of the file and the floating-point matrices are left out.

    [Game.hpp] is not among the sources.  What it declares is taken as
    follows: the counters and coordinates are C integers, kept here as [Z]
    (no theorem below drives one across a machine bound); [board] is a
    two-index table of [int] read and written as [board[x][y]], [x] the
    column and [y] the row; [controls] holds the two booleans [left] and
    [right]. *)

From Stdlib Require Import ZArith List Bool Lia FinFun.
From Stdlib Require Ascii String.
Import ListNotations.
Local Open Scope Z_scope.

(** ** Cells and the board *)

(** The four values the code stores in a cell: the literals [-1], [0], [1]
    and [2] of the source, under the names the specification gives them. *)
Definition EMPTY : Z := -1.
Definition SHIP : Z := 0.
Definition STAR : Z := 1.
Definition BLOCK : Z := 2.

(** Modelled from the spec: [board_size], a [glm::uvec2] declared in
    [Game.hpp], is 9 x 9.  The source agrees: columns are drawn with
    [rand() % 9] and the far row is written as the literal [8]. *)
Definition board_size_x : Z := 9.

(** Modelled from the spec: the second component of [board_size], 9 rows;
    the source's loops over the rows stop at [board_size.y] and its far row
    is row 8. *)
Definition board_size_y : Z := 9.

(** [board[x][y]].  The table is total in the model; a C++ access outside
    [0..8] would be outside the array, and the theorems that read or write a
    cell through [ship_x] or [ship_y] assume them in range. *)
Definition Board : Type := Z -> Z -> Z.

Definition board_get (b : Board) (x y : Z) : Z := b x y.

Definition board_set (b : Board) (x y v : Z) : Board :=
  fun i j => if (i =? x) && (j =? y) then v else b i j.

(** [for (uint32_t i = lo; i < hi; ++i) body], the state threaded through. *)
Fixpoint for_loop {St : Type} (n : nat) (i : Z) (body : Z -> St -> St) (s : St) : St :=
  match n with
  | O => s
  | S n' => for_loop n' (i + 1) body (body i s)
  end.

Definition for_range {St : Type} (lo hi : Z) (body : Z -> St -> St) (s : St) : St :=
  for_loop (Z.to_nat (hi - lo)) lo body s.

(** The same loop when the body may fail to return. *)
Fixpoint for_loop_opt {St : Type} (n : nat) (i : Z) (body : Z -> St -> option St) (s : St)
  : option St :=
  match n with
  | O => Some s
  | S n' =>
      match body i s with
      | None => None
      | Some s' => for_loop_opt n' (i + 1) body s'
      end
  end.

Definition for_range_opt {St : Type} (lo hi : Z) (body : Z -> St -> option St) (s : St)
  : option St :=
  for_loop_opt (Z.to_nat (hi - lo)) lo body s.

(** Lines 220-224: every cell of the board set to [-1]. *)
Definition clear_board (b : Board) : Board :=
  for_range 0 board_size_x
    (fun i b1 => for_range 0 board_size_y (fun j b2 => board_set b2 i j (-1)) b1) b.

(** Lines 306-310 and 345-349, "move blocks down":
    [board[i][j-1] = board[i][j]] for [j] from 2, [i] from 0. *)
Definition move_blocks_down (b : Board) : Board :=
  for_range 2 board_size_y
    (fun j b1 =>
       for_range 0 board_size_x
         (fun i b2 => board_set b2 i (j - 1) (board_get b2 i j)) b1) b.

(** Lines 314-316 and 353-355: [board[j][8] = -1] for every column [j]. *)
Definition clear_far_row (b : Board) : Board :=
  for_range 0 board_size_x (fun j b1 => board_set b1 j 8 (-1)) b.

(** ** Random draws *)

(** The successive results of [rand()]: call number [k] returns [rs k].
    [rand()] is never negative, hence [nat].  The state of the generator is
    the number of calls made so far. *)
Definition RandSeq : Type := nat -> nat.

(** [rand() % m]; C's [%] truncates, which is [Z.rem]. *)
Definition rand_rem (rs : RandSeq) (k : nat) (m : Z) : Z := Z.rem (Z.of_nat (rs k)) m.

Section Draws.

Variable rs : RandSeq.

(** The rejection loop
    [do { num = rand() % 9; } while (board[num][y] != -1);]
    run for at most [fuel] draws.  [None]: the loop is still running when
    the fuel is spent. *)
Fixpoint draw_empty (fuel : nat) (b : Board) (y : Z) (k : nat) : option (Z * nat) :=
  match fuel with
  | O => None
  | S fuel' =>
      let num := rand_rem rs k 9 in
      if negb (board_get b num y =? -1)
      then draw_empty fuel' b y (S k)
      else Some (num, S k)
  end.

(** [for (j = 0; j < n; j++) { do ... while ...; board[num][y] = v; }] *)
Fixpoint place (n : nat) (v : Z) (fuel : nat) (y : Z) (b : Board) (k : nat)
  : option (Board * nat) :=
  match n with
  | O => Some (b, k)
  | S n' =>
      match draw_empty fuel b y k with
      | None => None
      | Some (num, k1) => place n' v fuel y (board_set b num y v) k1
      end
  end.

(** Lines 236-247, 317-328 and 356-367: the [blocks] loop writing [2],
    then the [stars] loop writing [1], both on row [y]. *)
Definition populate (fuel : nat) (y blocks stars : Z) (b : Board) (k : nat)
  : option (Board * nat) :=
  match place (Z.to_nat blocks) 2 fuel y b k with
  | None => None
  | Some (b1, k1) => place (Z.to_nat stars) 1 fuel y b1 k1
  end.

(** Lines 233-247, the body of the constructor's loop over the rows. *)
Definition fill_row (fuel : nat) (i : Z) (s : Board * nat) : option (Board * nat) :=
  let (b, k) := s in
  let blocks := rand_rem rs k 3 + 1 in
  let stars := rand_rem rs (S k) 2 in
  populate fuel i blocks stars b (S (S k)).

(** Lines 311-328 and 350-367: the two draws, the far row cleared, then
    repopulated. *)
Definition respawn (fuel : nat) (b : Board) (k : nat) : option (Board * nat) :=
  let blocks := rand_rem rs k 3 + 1 in
  let stars := rand_rem rs (S k) 2 in
  let b1 := clear_far_row b in
  populate fuel 8 blocks stars b1 (S (S k)).

End Draws.

(** ** The game object *)

Module Controls.
Record t : Type := mk { left : bool; right : bool }.
End Controls.

Record Game : Type := mkGame {
  board : Board;
  ship_x : Z;
  ship_y : Z;
  score : Z;
  lives : Z;
  game_over : Z;
  controls : Controls.t
}.

Definition set_board (g : Game) (b : Board) : Game :=
  mkGame b (ship_x g) (ship_y g) (score g) (lives g) (game_over g) (controls g).
Definition set_ship_x (g : Game) (x : Z) : Game :=
  mkGame (board g) x (ship_y g) (score g) (lives g) (game_over g) (controls g).
Definition set_ship_y (g : Game) (y : Z) : Game :=
  mkGame (board g) (ship_x g) y (score g) (lives g) (game_over g) (controls g).
Definition set_score (g : Game) (n : Z) : Game :=
  mkGame (board g) (ship_x g) (ship_y g) n (lives g) (game_over g) (controls g).
Definition set_lives (g : Game) (n : Z) : Game :=
  mkGame (board g) (ship_x g) (ship_y g) (score g) n (game_over g) (controls g).
Definition set_game_over (g : Game) (n : Z) : Game :=
  mkGame (board g) (ship_x g) (ship_y g) (score g) (lives g) n (controls g).
Definition set_controls (g : Game) (c : Controls.t) : Game :=
  mkGame (board g) (ship_x g) (ship_y g) (score g) (lives g) (game_over g) c.

(** *** The constructor, lines 220-248

    [g0] is the object as the member initialisers of [Game.hpp] leave it;
    the body overwrites the board and the ship's coordinates.  [srand] only
    chooses the sequence [rs]. *)
Definition Game_ctor (rs : RandSeq) (fuel : nat) (g0 : Game) (k : nat) : option (Game * nat) :=
  let b0 := clear_board (board g0) in
  let g1 := set_ship_y (set_ship_x (set_board g0 b0) 4) 0 in
  let b1 := board_set (board g1) 4 0 0 in
  match for_range_opt 2 board_size_y (fill_row rs fuel) (b1, k) with
  | None => None
  | Some (b2, k2) => Some (set_board g1 b2, k2)
  end.

(** *** [Game::handle_event], lines 264-281 *)

Inductive EventType : Type := SDL_KEYDOWN | SDL_KEYUP | SDL_OTHER_EVENT.
Inductive Scancode : Type := SDL_SCANCODE_LEFT | SDL_SCANCODE_RIGHT | SDL_SCANCODE_OTHER.

Record SDL_Event : Type := mkEvent {
  evt_type : EventType;
  key_repeat : bool;
  key_scancode : Scancode
}.

Definition is_keydown (t : EventType) : bool :=
  match t with SDL_KEYDOWN => true | _ => false end.
Definition is_keyup (t : EventType) : bool :=
  match t with SDL_KEYUP => true | _ => false end.

Definition handle_event (evt : SDL_Event) (g : Game) : bool * Game :=
  if is_keydown (evt_type evt) && key_repeat evt then (false, g)
  else if is_keydown (evt_type evt) || is_keyup (evt_type evt) then
    match key_scancode evt with
    | SDL_SCANCODE_LEFT =>
        (true, set_controls g
                 (Controls.mk (is_keydown (evt_type evt)) (Controls.right (controls g))))
    | SDL_SCANCODE_RIGHT =>
        (true, set_controls g
                 (Controls.mk (Controls.left (controls g)) (is_keydown (evt_type evt))))
    | SDL_SCANCODE_OTHER => (false, g)
    end
  else (false, g).

(** *** [Game::update], lines 283-376 *)

(** Lines 292-294 and 330-332: the old ship cell emptied, [ship_x] stepped
    to [x'] ([ship_x--] or [ship_x++]), the new cell marked. *)
Definition move_ship (g : Game) (x' : Z) : Game :=
  let g1 := set_board g (board_set (board g) (ship_x g) (ship_y g) (-1)) in
  let g2 := set_ship_x g1 x' in
  set_board g2 (board_set (board g2) (ship_x g2) (ship_y g2) 0).

(** Lines 296-304 and 334-342: the two tests on [board[ship_x][ship_y + 1]]. *)
Definition collide (g : Game) : Game :=
  let g1 :=
    if board_get (board g) (ship_x g) (ship_y g + 1) =? 1
    then set_score g (score g + 1) else g in
  if board_get (board g1) (ship_x g1) (ship_y g1 + 1) =? 2
  then
    let g2 := set_lives g1 (lives g1 - 1) in
    if lives g2 =? 0 then set_game_over g2 1 else g2
  else g1.

(** One branch of the [if]/[else if]: lines 292-328 with [x' = ship_x - 1],
    lines 330-367 with [x' = ship_x + 1]; the two bodies are otherwise the
    same statements. *)
Definition move_branch (rs : RandSeq) (fuel : nat) (x' : Z) (g : Game) (k : nat)
  : option (Game * nat) :=
  let g1 := collide (move_ship g x') in
  let b1 := move_blocks_down (board g1) in
  match respawn rs fuel b1 k with
  | None => None
  | Some (b2, k2) => Some (set_board g1 b2, k2)
  end.

(** Lines 291-368: the movement phase. *)
Definition movement (rs : RandSeq) (fuel : nat) (g : Game) (k : nat) : option (Game * nat) :=
  if Controls.left (controls g) && negb (ship_x g =? 0) then
    move_branch rs fuel (ship_x g - 1) g k
  else if Controls.right (controls g) && negb (ship_x g =? board_size_x - 1) then
    move_branch rs fuel (ship_x g + 1) g k
  else Some (g, k).

(** Lines 370-375: the score test and the two flags reset. *)
Definition end_of_tick (g : Game) : Game :=
  let g1 := if score g =? 49 then set_game_over g 1 else g in
  set_controls g1 (Controls.mk false false).

(** [elapsed] is not used by the body and is left out. *)
Definition update (rs : RandSeq) (fuel : nat) (g : Game) (k : nat) : option (Game * nat) :=
  if game_over g =? 1 then Some (g, k)
  else
    match movement rs fuel g k with
    | None => None
    | Some (g1, k1) => Some (end_of_tick g1, k1)
    end.

(** ** Vocabulary of the specification *)

(** The columns of the board, [0 .. board_size.x - 1]. *)
Definition columns : list Z := map Z.of_nat (seq 0 (Z.to_nat board_size_x)).

(** How many cells of the columns [l] hold [w] on row [y]. *)
Definition count_in (l : list Z) (b : Board) (y w : Z) : nat :=
  length (filter (fun x => board_get b x y =? w) l).

Definition count_row (b : Board) (y w : Z) : nat := count_in columns b y w.

Definition indicator (c : bool) : nat := if c then 1%nat else 0%nat.

(** A populated row: 1 to 3 blocks, at most one star, the rest [EMPTY]. *)
Definition row_populated (b : Board) (y : Z) : Prop :=
  (1 <= count_row b y BLOCK <= 3)%nat /\ (count_row b y STAR <= 1)%nat /\
  (count_row b y EMPTY + count_row b y BLOCK + count_row b y STAR = 9)%nat.

(** "The ship moves to column [x']": pending left with [ship_x > 0], or
    else pending right with [ship_x < 8]. *)
Definition ship_moves (g : Game) (x' : Z) : Prop :=
  (Controls.left (controls g) = true /\ ship_x g > 0 /\ x' = ship_x g - 1) \/
  (~ (Controls.left (controls g) = true /\ ship_x g > 0) /\
   Controls.right (controls g) = true /\ ship_x g < 8 /\ x' = ship_x g + 1).

(** The ship's coordinates lie on the board, on row 0. *)
Definition ship_on_board (g : Game) : Prop :=
  0 <= ship_x g < board_size_x /\ ship_y g = 0.

(** Row 0 holds the ship at [ship_x] and nothing else. *)
Definition ship_row_ok (g : Game) : Prop :=
  forall x, 0 <= x < board_size_x ->
            board_get (board g) x 0 = if x =? ship_x g then SHIP else EMPTY.

(** Every column keeps being drawn: from any call on, each column comes up
    again. *)
Definition fair (rs : RandSeq) : Prop :=
  forall (k : nat) (c : Z), 0 <= c < 9 -> exists n : nat, rand_rem rs (k + n) 9 = c.

(** The states of a run: the object after the constructor, then after any
    sequence of [handle_event] and [update] calls.  The second component
    counts the calls to [rand()] made so far. *)
Inductive reachable (rs : RandSeq) (g0 : Game) : Game * nat -> Prop :=
| reach_ctor : forall fuel st,
    Game_ctor rs fuel g0 0 = Some st -> reachable rs g0 st
| reach_event : forall evt g k,
    reachable rs g0 (g, k) -> reachable rs g0 (snd (handle_event evt g), k)
| reach_update : forall fuel g k st,
    reachable rs g0 (g, k) -> update rs fuel g k = Some st -> reachable rs g0 st.

(** ** Sample sequences and states *)

(** [rand()] returning 0, 1, 2, ...: every column comes up every nine
    calls. *)
Definition seq_count : RandSeq := fun n => n.

(** [rand()] returning 1 and then 0 for ever. *)
Definition seq_stuck : RandSeq := fun n => match n with O => 1%nat | S _ => 0%nat end.

Definition empty_board : Board := fun _ _ => -1.

(** The ship at column 4, a star to its front left, a block to its front
    right and a block on row 2. *)
Definition sample_board : Board :=
  board_set (board_set (board_set (board_set empty_board 4 0 0) 3 1 1) 5 1 2) 3 2 2.

(** One star short of 49, left key pending. *)
Definition sample_left : Game :=
  mkGame sample_board 4 0 48 3 0 (Controls.mk true false).

(** Last life, right key pending. *)
Definition sample_right : Game :=
  mkGame sample_board 4 0 0 1 0 (Controls.mk false true).

(** No key pending. *)
Definition sample_idle : Game :=
  mkGame sample_board 4 0 0 3 0 (Controls.mk false false).

(** The game is over and the left key is pending. *)
Definition sample_over : Game :=
  mkGame sample_board 4 0 0 0 1 (Controls.mk true false).

(** The ship in column 0 with a block to its front right. *)
Definition corner_board : Board :=
  board_set (board_set (board_set empty_board 0 0 0) 1 1 2) 1 2 1.

(** At the left edge with the left key pending. *)
Definition sample_edge : Game :=
  mkGame corner_board 0 0 0 3 0 (Controls.mk true false).

(** At the left edge with both keys pending. *)
Definition sample_both : Game :=
  mkGame corner_board 0 0 0 3 0 (Controls.mk true true).

(** ** Runs, and rows at rest *)

(** One call on the object: an event handled, or a tick. *)
Inductive step (rs : RandSeq) : Game * nat -> Game * nat -> Prop :=
| step_event : forall evt g k, step rs (g, k) (snd (handle_event evt g), k)
| step_update : forall fuel g k st, update rs fuel g k = Some st -> step rs (g, k) st.

(** Any number of calls, one after the other. *)
Inductive steps (rs : RandSeq) : Game * nat -> Game * nat -> Prop :=
| steps_done : forall st, steps rs st st
| steps_next : forall st1 st2 st3, step rs st1 st2 -> steps rs st2 st3 -> steps rs st1 st3.

(** The events of a frame handled in turn. *)
Definition handle_events (evts : list SDL_Event) (g : Game) : Game :=
  fold_left (fun g1 evt => snd (handle_event evt g1)) evts g.

(** A fresh press of the left or right key: the only event that sets a
    flag of [controls]. *)
Definition is_press (evt : SDL_Event) : bool :=
  is_keydown (evt_type evt) && negb (key_repeat evt) &&
  match key_scancode evt with SDL_SCANCODE_OTHER => false | _ => true end.

(** A row with at most 3 blocks, at most one star, the rest [EMPTY]. *)
Definition row_sparse (b : Board) (y : Z) : Prop :=
  (count_row b y BLOCK <= 3)%nat /\ (count_row b y STAR <= 1)%nat /\
  (count_row b y EMPTY + count_row b y BLOCK + count_row b y STAR = 9)%nat.

(** Rows 2 to 8 populated, row 1 sparse: the obstacle rows between two
    ticks. *)
Definition rows_at_rest (b : Board) : Prop :=
  (forall y, 2 <= y <= 8 -> row_populated b y) /\ row_sparse b 1.

(** The counters of a game in order: the score at most 49, no negative
    number of lives, and the game over exactly when the score is 49 or no
    life is left. *)
Definition counters_ok (g : Game) : Prop :=
  score g <= 49 /\ 0 <= lives g /\
  (game_over g = 1 <-> score g = 49 \/ lives g = 0).

(** An object with defaults as a header would give them. *)
Definition sample_fresh : Game :=
  mkGame empty_board 0 0 0 3 0 (Controls.mk false false).

Definition press_left : SDL_Event := mkEvent SDL_KEYDOWN false SDL_SCANCODE_LEFT.
Definition repeat_left : SDL_Event := mkEvent SDL_KEYDOWN true SDL_SCANCODE_LEFT.
Definition release_left : SDL_Event := mkEvent SDL_KEYUP false SDL_SCANCODE_LEFT.
Definition press_right : SDL_Event := mkEvent SDL_KEYDOWN false SDL_SCANCODE_RIGHT.

(** ** The index of meshes, lines 127-180 of the constructor

    [read_chunk] hands over the vertices, the characters of the names and
    the index entries; of the vertices only their number is used here.  The
    fields of an entry are [uint32_t]. *)

Module MeshIndex.

Import Ascii String.

Record IndexEntry : Type := mkIndexEntry {
  name_begin : Z;
  name_end : Z;
  vertex_begin : Z;
  vertex_end : Z
}.

(** [Mesh] is declared in [Game.hpp]; the source reads and writes its two
    fields [first] and [count], kept here with the values assigned. *)
Record Mesh : Type := mkMesh { first : Z; count : Z }.

(** The three [std::runtime_error]s of the loop and the one of [lookup]. *)
Inductive LoadError : Type :=
| invalid_name_indices
| invalid_vertex_indices
| duplicate_name
| mesh_missing (name : string).

(** [std::map< std::string, Mesh >]: keys are unique and only [insert] and
    [find] are used, so the order of the pairs is not observable. *)
Definition Index : Type := list (string * Mesh).

Fixpoint find (index : Index) (name : string) : option Mesh :=
  match index with
  | [] => None
  | (n, m) :: rest => if String.eqb n name then Some m else find rest name
  end.

(** [std::string(names.begin() + e.name_begin, names.begin() + e.name_end)] *)
Definition entry_name (names : list ascii) (e : IndexEntry) : string :=
  string_of_list_ascii
    (firstn (Z.to_nat (name_end e - name_begin e)) (skipn (Z.to_nat (name_begin e)) names)).

(** Lines 157-159; the subtraction is a [uint32_t] one. *)
Definition entry_mesh (e : IndexEntry) : Mesh :=
  mkMesh (vertex_begin e) ((vertex_end e - vertex_begin e) mod 4294967296).

(** Lines 150-166: the loop over the entries, [index] the map so far. *)
Fixpoint build_index (names : list ascii) (vertices_size : Z)
         (entries : list IndexEntry) (index : Index) : LoadError + Index :=
  match entries with
  | [] => inr index
  | e :: rest =>
      if (name_begin e >? name_end e) || (name_end e >? Z.of_nat (List.length names))
      then inl invalid_name_indices
      else if (vertex_begin e >? vertex_end e) || (vertex_end e >? vertices_size)
      then inl invalid_vertex_indices
      else
        match find index (entry_name names e) with
        | Some _ => inl duplicate_name
        | None =>
            build_index names vertices_size rest
                        ((entry_name names e, entry_mesh e) :: index)
        end
  end.

(** Lines 169-175. *)
Definition lookup (index : Index) (name : string) : LoadError + Mesh :=
  match find index name with
  | None => inl (mesh_missing name)
  | Some m => inr m
  end.

Record Meshes : Type := mkMeshes {
  tile_mesh : Mesh;
  ship_mesh : Mesh;
  star_mesh : Mesh;
  brick_mesh : Mesh
}.

Definition name_plane : string := "Plane".
Definition name_ship : string := "Ship".
Definition name_star : string := "Star".
Definition name_brick : string := "Brick".

(** Lines 149-179: the index built, then the four meshes looked up. *)
Definition load_meshes (names : list ascii) (vertices_size : Z) (entries : list IndexEntry)
  : LoadError + Meshes :=
  match build_index names vertices_size entries [] with
  | inl err => inl err
  | inr index =>
      match lookup index name_plane with
      | inl err => inl err
      | inr tile =>
          match lookup index name_ship with
          | inl err => inl err
          | inr ship =>
              match lookup index name_star with
              | inl err => inl err
              | inr star =>
                  match lookup index name_brick with
                  | inl err => inl err
                  | inr brick => inr (mkMeshes tile ship star brick)
                  end
              end
          end
      end
  end.

(** Lines 211-213: [mesh_array[0] = ship_mesh], [[1] = star_mesh],
    [[2] = brick_mesh].  The array is declared in [Game.hpp]; it is given
    the three elements the constructor assigns. *)
Definition mesh_array (ms : Meshes) : list Mesh := [ship_mesh ms; star_mesh ms; brick_mesh ms].

(** [mesh_array[v]] for an [int] index; [None] outside the array. *)
Definition mesh_at (ms : Meshes) (v : Z) : option Mesh :=
  if v <? 0 then None else nth_error (mesh_array ms) (Z.to_nat v).

(** An entry whose ranges lie inside the names and the vertices. *)
Definition entry_ok (names : list ascii) (vertices_size : Z) (e : IndexEntry) : Prop :=
  name_begin e <= name_end e <= Z.of_nat (List.length names) /\
  vertex_begin e <= vertex_end e <= vertices_size.

(** The fields of an entry are [uint32_t] values. *)
Definition entry_uint32 (e : IndexEntry) : Prop :=
  0 <= name_begin e < 4294967296 /\ 0 <= name_end e < 4294967296 /\
  0 <= vertex_begin e < 4294967296 /\ 0 <= vertex_end e < 4294967296.

(** The characters "PlaneShipStarBrick" and an index of four meshes over
    them; a second list with the name "Ship" twice; a third without
    "Brick". *)
Definition sample_names : list ascii := list_ascii_of_string "PlaneShipStarBrick".

Definition sample_entries : list IndexEntry :=
  [mkIndexEntry 0 5 0 6; mkIndexEntry 5 9 6 30; mkIndexEntry 9 13 30 60;
   mkIndexEntry 13 18 60 96].

Definition sample_entries_twice : list IndexEntry :=
  [mkIndexEntry 0 5 0 6; mkIndexEntry 5 9 6 30; mkIndexEntry 5 9 30 60].

Definition sample_entries_short : list IndexEntry :=
  [mkIndexEntry 0 5 0 6; mkIndexEntry 5 9 6 30; mkIndexEntry 9 13 30 60].

Definition sample_meshes : Meshes :=
  mkMeshes (mkMesh 0 6) (mkMesh 6 24) (mkMesh 30 30) (mkMesh 60 36).

End MeshIndex.

(** ** [Game::draw], lines 431-492

    The calls to [draw_mesh] in the order they are made.  Each call is
    recorded with the mesh it passes and the integers its transformation
    is computed from; the matrices themselves are floating point and are
    not modelled, nor is [world_to_clip]. *)

Inductive DrawCall : Type :=
| draw_board (m : MeshIndex.Mesh)
| draw_cell (m : MeshIndex.Mesh) (kind x y : Z)
| draw_life (m : MeshIndex.Mesh) (i : Z)
| draw_star (m : MeshIndex.Mesh) (i rows : Z).

(** The value a [uint32_t] loop counter is compared with. *)
Definition as_uint32 (z : Z) : Z := z mod 4294967296.

(** Lines 445-460: for every row [y] and every column [x], a cell that is
    not [-1] is drawn with [mesh_array[board[x][y]]], scaled by
    [sizes[board[x][y]]], at [(x + 0.5, y + 0.5)].  [None]: the index is
    outside the array. *)
Definition draw_cells (ms : MeshIndex.Meshes) (b : Board) (out : list DrawCall)
  : option (list DrawCall) :=
  for_range_opt 0 board_size_y
    (fun y out1 =>
       for_range_opt 0 board_size_x
         (fun x out2 =>
            if negb (board_get b x y =? -1) then
              match MeshIndex.mesh_at ms (board_get b x y) with
              | None => None
              | Some m => Some (out2 ++ [draw_cell m (board_get b x y) x y])
              end
            else Some out2) out1) out.

(** Lines 463-473: one ship per life, at [(i - 2.4, 8.5)]. *)
Definition draw_lives (m : MeshIndex.Mesh) (n : Z) (out : list DrawCall) : list DrawCall :=
  for_range 0 (as_uint32 n) (fun i out1 => out1 ++ [draw_life m i]) out.

(** Lines 478-491, the body of the loop over the score: [i] the column
    counter, [rows] the number of times [j += .5f] has run. *)
Definition star_step (m : MeshIndex.Mesh) (st : Z * Z * list DrawCall)
  : Z * Z * list DrawCall :=
  let '(i, rows, out) := st in
  let '(i1, rows1) :=
    if (Z.rem i 3 =? 0) && negb (i =? 0) then (0, rows + 1) else (i, rows) in
  (i1 + 1, rows1, out ++ [draw_star m i1 rows1]).

(** Lines 475-492: one star per point, at [(i - 2.4, 7.8 - j)]. *)
Definition draw_score (m : MeshIndex.Mesh) (n : Z) (out : list DrawCall) : list DrawCall :=
  snd (for_range 0 (as_uint32 n) (fun _ st => star_step m st) (0, 0, out)).

Definition draw (ms : MeshIndex.Meshes) (g : Game) : option (list DrawCall) :=
  match draw_cells ms (board g) [draw_board (MeshIndex.tile_mesh ms)] with
  | None => None
  | Some out1 =>
      match MeshIndex.mesh_at ms 0, MeshIndex.mesh_at ms 1 with
      | Some m0, Some m1 => Some (draw_score m1 (score g) (draw_lives m0 (lives g) out1))
      | _, _ => None
      end
  end.

(** The mesh a call hands to [glDrawArrays] as [mesh.first], [mesh.count]. *)
Definition call_mesh (c : DrawCall) : MeshIndex.Mesh :=
  match c with
  | draw_board m => m
  | draw_cell m _ _ _ => m
  | draw_life m _ => m
  | draw_star m _ _ => m
  end.

(** The integers from [0] to [n - 1]. *)
Definition upto (n : Z) : list Z := map Z.of_nat (seq 0 (Z.to_nat n)).

(** The call made for the cell [(x, y)], if any. *)
Definition cell_call (ms : MeshIndex.Meshes) (b : Board) (y x : Z) : list DrawCall :=
  if negb (board_get b x y =? -1) then
    match MeshIndex.mesh_at ms (board_get b x y) with
    | None => []
    | Some m => [draw_cell m (board_get b x y) x y]
    end
  else [].

(** The calls for the cells, row after row and column after column. *)
Definition cell_calls (ms : MeshIndex.Meshes) (b : Board) : list DrawCall :=
  flat_map (fun y => flat_map (cell_call ms b y) (upto board_size_x)) (upto board_size_y).

(** ** Loops over index ranges *)

Lemma for_loop_inv {St : Type} (P : Z -> St -> Prop) (body : Z -> St -> St) :
  forall (n : nat) (i0 : Z) (s : St),
    P i0 s ->
    (forall i t, i0 <= i < i0 + Z.of_nat n -> P i t -> P (i + 1) (body i t)) ->
    P (i0 + Z.of_nat n) (for_loop n i0 body s).
Proof.
  induction n as [|n IH]; intros i0 s H0 Hstep; simpl for_loop.
  - replace (i0 + Z.of_nat 0) with i0 by lia. exact H0.
  - replace (i0 + Z.of_nat (S n)) with ((i0 + 1) + Z.of_nat n) by lia.
    apply IH.
    + apply Hstep; [lia | exact H0].
    + intros i t Hi Ht. apply Hstep; [lia | exact Ht].
Qed.

Lemma for_loop_opt_inv {St : Type} (P : Z -> St -> Prop) (body : Z -> St -> option St) :
  forall (n : nat) (i0 : Z) (s s' : St),
    P i0 s ->
    (forall i t t', i0 <= i < i0 + Z.of_nat n -> P i t -> body i t = Some t' -> P (i + 1) t') ->
    for_loop_opt n i0 body s = Some s' ->
    P (i0 + Z.of_nat n) s'.
Proof.
  induction n as [|n IH]; intros i0 s s' H0 Hstep Hrun; simpl for_loop_opt in Hrun.
  - injection Hrun as <-. replace (i0 + Z.of_nat 0) with i0 by lia. exact H0.
  - destruct (body i0 s) as [s1|] eqn:Hb; [|discriminate].
    replace (i0 + Z.of_nat (S n)) with ((i0 + 1) + Z.of_nat n) by lia.
    apply IH with (s := s1); [| |exact Hrun].
    + apply Hstep with (t := s); [lia | exact H0 | exact Hb].
    + intros i t t' Hi Ht Hbt. apply Hstep with (t := t); [lia | exact Ht | exact Hbt].
Qed.

(** A loop whose body always returns, returns. *)
Lemma for_loop_opt_total {St : Type} (P : Z -> St -> Prop) (body : Z -> St -> option St) :
  forall (n : nat) (i0 : Z) (s : St),
    P i0 s ->
    (forall i t, i0 <= i < i0 + Z.of_nat n -> P i t ->
                 exists t', body i t = Some t' /\ P (i + 1) t') ->
    exists s', for_loop_opt n i0 body s = Some s' /\ P (i0 + Z.of_nat n) s'.
Proof.
  induction n as [|n IH]; intros i0 s H0 Hstep; simpl for_loop_opt.
  - exists s. split; [reflexivity|]. replace (i0 + Z.of_nat 0) with i0 by lia. exact H0.
  - destruct (Hstep i0 s) as (s1 & Hb & H1); [lia | exact H0 |].
    rewrite Hb. replace (i0 + Z.of_nat (S n)) with ((i0 + 1) + Z.of_nat n) by lia.
    apply IH; [exact H1|].
    intros i t Hi Ht. apply Hstep; [lia | exact Ht].
Qed.

(** ** Reading a board after a write *)

Lemma board_set_same (b : Board) (x y v : Z) : board_set b x y v x y = v.
Proof. unfold board_set. now rewrite !Z.eqb_refl. Qed.

Lemma board_set_other (b : Board) (x y v i j : Z) :
  i <> x \/ j <> y -> board_set b x y v i j = b i j.
Proof.
  intros H. unfold board_set.
  destruct (i =? x) eqn:Ei; destruct (j =? y) eqn:Ej; simpl; try reflexivity.
  apply Z.eqb_eq in Ei, Ej. lia.
Qed.

Lemma board_set_cases (b : Board) (x y v i j : Z) :
  (i = x /\ j = y /\ board_set b x y v i j = v) \/
  ((i <> x \/ j <> y) /\ board_set b x y v i j = b i j).
Proof.
  destruct (Z.eq_dec i x) as [->|Hx]; [destruct (Z.eq_dec j y) as [->|Hy]|].
  - left. now rewrite board_set_same.
  - right. split; [now right|]. apply board_set_other. now right.
  - right. split; [now left|]. apply board_set_other. now left.
Qed.

(** Lines 220-224 leave [-1] in every cell of the board. *)
Lemma clear_board_spec (b : Board) (x y : Z) :
  0 <= x < board_size_x -> 0 <= y < board_size_y -> clear_board b x y = -1.
Proof.
  intros Hx Hy. unfold clear_board, for_range.
  pose (P := fun (i : Z) (t : Board) => forall x y, 0 <= x < i -> 0 <= y < 9 -> t x y = -1).
  assert (H : P (0 + Z.of_nat (Z.to_nat (board_size_x - 0)))
                (for_loop (Z.to_nat (board_size_x - 0)) 0
                   (fun i b1 => for_loop (Z.to_nat (board_size_y - 0)) 0
                                  (fun j b2 => board_set b2 i j (-1)) b1) b)).
  { apply for_loop_inv.
    - intros x0 y0 Hx0 _. lia.
    - intros i t Hi Ht.
      pose (Q := fun (j : Z) (u : Board) =>
                   forall x y, (0 <= x < i /\ 0 <= y < 9) \/ (x = i /\ 0 <= y < j) -> u x y = -1).
      assert (HQ : Q (0 + Z.of_nat (Z.to_nat (board_size_y - 0)))
                     (for_loop (Z.to_nat (board_size_y - 0)) 0
                        (fun j b2 => board_set b2 i j (-1)) t)).
      { apply for_loop_inv.
        - intros x0 y0 [[H1 H2]|[H1 H2]]; [now apply Ht | lia].
        - intros j u Hj Hu x0 y0 Hc.
          destruct (board_set_cases u i j (-1) x0 y0) as [(_ & _ & ->)|(Hne & ->)];
            [reflexivity|].
          apply Hu. lia. }
      intros x0 y0 Hx0 Hy0. apply HQ. unfold board_size_y. simpl. lia. }
  apply H; unfold board_size_x in *; unfold board_size_y in *; simpl; lia.
Qed.

(** Lines 314-316: the far row is emptied, the other rows are left alone. *)
Lemma clear_far_row_spec (b : Board) (x y : Z) :
  clear_far_row b x y =
    if (y =? 8) && (0 <=? x) && (x <? board_size_x) then -1 else b x y.
Proof.
  unfold clear_far_row, for_range.
  pose (P := fun (i : Z) (t : Board) =>
               forall x y, t x y = if (y =? 8) && (0 <=? x) && (x <? i) then -1 else b x y).
  assert (H : P (0 + Z.of_nat (Z.to_nat (board_size_x - 0)))
                (for_loop (Z.to_nat (board_size_x - 0)) 0
                   (fun j b1 => board_set b1 j 8 (-1)) b)).
  { apply for_loop_inv.
    - intros x0 y0.
      destruct (y0 =? 8); destruct (0 <=? x0) eqn:E1; destruct (x0 <? 0) eqn:E2;
        simpl; try reflexivity. lia.
    - intros i t Hi Ht x0 y0.
      destruct (board_set_cases t i 8 (-1) x0 y0) as [(-> & -> & ->)|(Hne & ->)].
      + replace (0 <=? i) with true by lia. replace (i <? i + 1) with true by lia.
        reflexivity.
      + rewrite Ht.
        destruct (y0 =? 8) eqn:E0; destruct (0 <=? x0) eqn:E1;
          destruct (x0 <? i) eqn:E2; destruct (x0 <? i + 1) eqn:E3;
          simpl; try reflexivity; lia. }
  rewrite H. reflexivity.
Qed.

(** Lines 306-310: for [j] in 2..8, row [j - 1] receives what row [j] held
    before the loop; row 0 and row 8 are not written. *)
Lemma move_blocks_down_spec (b : Board) (x y : Z) :
  move_blocks_down b x y =
    if (1 <=? y) && (y <? board_size_y - 1) && (0 <=? x) && (x <? board_size_x)
    then b x (y + 1) else b x y.
Proof.
  unfold move_blocks_down, for_range.
  pose (P := fun (j : Z) (t : Board) =>
               forall x y,
                 t x y = if (1 <=? y) && (y <? j - 1) && (0 <=? x) && (x <? 9)
                         then b x (y + 1)
                         else b x y).
  assert (H : P (2 + Z.of_nat (Z.to_nat (board_size_y - 2)))
                (for_loop (Z.to_nat (board_size_y - 2)) 2
                   (fun j b1 =>
                      for_loop (Z.to_nat (board_size_x - 0)) 0
                        (fun i b2 => board_set b2 i (j - 1) (board_get b2 i j)) b1) b)).
  { apply for_loop_inv.
    - intros x0 y0.
      destruct (1 <=? y0) eqn:E1; destruct (y0 <? 2 - 1) eqn:E2; simpl; try reflexivity.
      lia.
    - intros j t Hj Ht.
      pose (Q := fun (i : Z) (u : Board) =>
                   forall x y,
                     u x y = if (y =? j - 1) && (0 <=? x) && (x <? i)
                             then t x j else t x y).
      assert (HQ : Q (0 + Z.of_nat (Z.to_nat (board_size_x - 0)))
                     (for_loop (Z.to_nat (board_size_x - 0)) 0
                        (fun i b2 => board_set b2 i (j - 1) (board_get b2 i j)) t)).
      { apply for_loop_inv.
        - intros x0 y0.
          destruct (y0 =? j - 1); destruct (0 <=? x0) eqn:E1; destruct (x0 <? 0) eqn:E2;
            simpl; try reflexivity. lia.
        - intros i u Hi Hu x0 y0. unfold board_get.
          destruct (board_set_cases u i (j - 1) (u i j) x0 y0) as [(-> & -> & ->)|(Hne & ->)].
          + rewrite Hu. rewrite Z.eqb_refl.
            replace (j =? j - 1) with false by lia.
            replace (0 <=? i) with true by lia. replace (i <? i + 1) with true by lia.
            reflexivity.
          + rewrite Hu.
            destruct (y0 =? j - 1) eqn:E0; destruct (0 <=? x0) eqn:E1;
              destruct (x0 <? i) eqn:E2; destruct (x0 <? i + 1) eqn:E3;
              simpl; try reflexivity; lia. }
      intros x0 y0. rewrite HQ.
      replace (0 + Z.of_nat (Z.to_nat (board_size_x - 0))) with 9 by reflexivity.
      rewrite !Ht.
      destruct (y0 =? j - 1) eqn:E0; destruct (0 <=? x0) eqn:E1;
        destruct (x0 <? 9) eqn:E2; destruct (1 <=? y0) eqn:E3;
        destruct (y0 <? j - 1) eqn:E4; destruct (y0 <? j + 1 - 1) eqn:E5;
        destruct (1 <=? j) eqn:E6; destruct (j <? j - 1) eqn:E7;
        simpl; try reflexivity; try lia.
      all: apply Z.eqb_eq in E0; subst y0; f_equal; lia. }
  rewrite H. reflexivity.
Qed.

(** ** Counting the cells of a row *)

Lemma columns_range (x : Z) : In x columns <-> 0 <= x < board_size_x.
Proof.
  unfold columns. rewrite in_map_iff. split.
  - intros (n & <- & Hn). apply in_seq in Hn. unfold board_size_x in *. lia.
  - intros Hx. exists (Z.to_nat x). split; [lia|]. apply in_seq.
    unfold board_size_x in *. lia.
Qed.

Lemma columns_NoDup : NoDup columns.
Proof.
  unfold columns. apply Injective_map_NoDup.
  - intros a b H. lia.
  - apply seq_NoDup.
Qed.

Lemma count_in_other_row (l : list Z) (b : Board) (x y v y' w : Z) :
  y' <> y -> count_in l (board_set b x y v) y' w = count_in l b y' w.
Proof.
  intros Hy. unfold count_in, board_get. f_equal. apply filter_ext.
  intros a. rewrite board_set_other; [reflexivity | now right].
Qed.

Lemma count_in_absent (l : list Z) (b : Board) (x y v w : Z) :
  ~ In x l -> count_in l (board_set b x y v) y w = count_in l b y w.
Proof.
  intros Hx. unfold count_in, board_get. f_equal. apply filter_ext_in.
  intros a Ha. rewrite board_set_other; [reflexivity|]. left. intros ->. now apply Hx.
Qed.

(** Writing [v] over a cell of the row moves one unit of the count from the
    old value to [v]. *)
Lemma count_in_write (l : list Z) (b : Board) (x y v w : Z) :
  NoDup l -> In x l ->
  (count_in l (board_set b x y v) y w + indicator (Z.eqb (b x y) w) =
   count_in l b y w + indicator (Z.eqb v w))%nat.
Proof.
  induction 1 as [|a l Ha Hnd IH]; intros Hin; [destruct Hin|].
  destruct Hin as [->|Hin].
  - pose proof (count_in_absent l b x y v w Ha) as E.
    unfold count_in, board_get in *. cbn [filter].
    rewrite board_set_same.
    destruct (v =? w); destruct (b x y =? w); cbn [length indicator]; lia.
  - assert (Hax : a <> x) by (intros ->; now apply Ha).
    specialize (IH Hin).
    unfold count_in, board_get in *. cbn [filter].
    rewrite board_set_other by now left.
    destruct (b a y =? w); cbn [length]; lia.
Qed.

Lemma count_row_write (b : Board) (x y v w : Z) :
  0 <= x < board_size_x ->
  (count_row (board_set b x y v) y w + indicator (Z.eqb (b x y) w) =
   count_row b y w + indicator (Z.eqb v w))%nat.
Proof.
  intros Hx. apply count_in_write; [apply columns_NoDup | now apply columns_range].
Qed.

(** The three counts of a row whose cells are all [-1], [1] or [2]. *)
Lemma count_row_total (b : Board) (y : Z) :
  (forall x, 0 <= x < board_size_x -> b x y = EMPTY \/ b x y = STAR \/ b x y = BLOCK) ->
  (count_row b y EMPTY + count_row b y STAR + count_row b y BLOCK = 9)%nat.
Proof.
  intros H. unfold count_row.
  assert (Hl : forall l, (forall x, In x l -> b x y = EMPTY \/ b x y = STAR \/ b x y = BLOCK) ->
                         (count_in l b y EMPTY + count_in l b y STAR + count_in l b y BLOCK
                          = length l)%nat).
  { induction l as [|a l IH]; intros Hc; [reflexivity|].
    assert (IH' := IH (fun x Hx => Hc x (or_intror Hx))).
    unfold count_in, board_get in *. cbn [filter].
    destruct (Hc a (or_introl eq_refl)) as [E|[E|E]]; rewrite E;
      unfold EMPTY, STAR, BLOCK in *; simpl; lia. }
  rewrite Hl; [reflexivity|]. intros x Hx. apply H. now apply columns_range.
Qed.

Lemma count_row_all_empty (b : Board) (y : Z) :
  (forall x, 0 <= x < board_size_x -> b x y = EMPTY) ->
  count_row b y EMPTY = 9%nat /\ count_row b y STAR = 0%nat /\ count_row b y BLOCK = 0%nat.
Proof.
  intros H. unfold count_row.
  assert (Hl : forall l, (forall x, In x l -> b x y = EMPTY) ->
                         count_in l b y EMPTY = length l /\ count_in l b y STAR = 0%nat /\
                         count_in l b y BLOCK = 0%nat).
  { induction l as [|a l IH]; intros Hc; [now repeat split|].
    destruct (IH (fun x Hx => Hc x (or_intror Hx))) as (I1 & I2 & I3).
    unfold count_in, board_get in *. cbn [filter].
    rewrite (Hc a (or_introl eq_refl)). unfold EMPTY, STAR, BLOCK in *. simpl.
    repeat split; lia. }
  apply Hl. intros x Hx. apply H. now apply columns_range.
Qed.

(** A row with an [EMPTY] count above zero has an [EMPTY] cell. *)
Lemma count_row_pos_empty (b : Board) (y : Z) :
  (0 < count_row b y EMPTY)%nat -> exists c, 0 <= c < 9 /\ b c y = -1.
Proof.
  unfold count_row, count_in. intros H.
  destruct (filter (fun x => board_get b x y =? EMPTY) columns) as [|c l] eqn:E;
    [simpl in H; lia|].
  assert (Hc : In c (filter (fun x => board_get b x y =? EMPTY) columns))
    by (rewrite E; now left).
  apply filter_In in Hc. destruct Hc as [Hc1 Hc2].
  exists c. split; [now apply columns_range in Hc1|].
  apply Z.eqb_eq in Hc2. exact Hc2.
Qed.

(** ** The rejection loop *)

Section DrawFacts.

Variable rs : RandSeq.

Lemma rand_rem_range (k : nat) (m : Z) : 0 < m -> 0 <= rand_rem rs k m < m.
Proof. intros Hm. unfold rand_rem. apply Z.rem_bound_pos; lia. Qed.

(** What the loop returns is a column of the board whose cell is [-1]. *)
Lemma draw_empty_spec :
  forall fuel b y k num k',
    draw_empty rs fuel b y k = Some (num, k') ->
    0 <= num < board_size_x /\ b num y = -1 /\ (k < k')%nat.
Proof.
  induction fuel as [|fuel IH]; intros b y k num k' H; simpl in H; [discriminate|].
  unfold board_get in H.
  destruct (b (rand_rem rs k 9) y =? -1) eqn:E; simpl in H.
  - injection H as <- <-. apply Z.eqb_eq in E.
    split; [apply (rand_rem_range k 9); lia|]. split; [exact E | lia].
  - apply IH in H. destruct H as (H1 & H2 & H3). repeat split; try tauto; lia.
Qed.

(** More fuel does not change a result. *)
Lemma draw_empty_mono :
  forall fuel fuel' b y k r,
    draw_empty rs fuel b y k = Some r -> (fuel <= fuel')%nat ->
    draw_empty rs fuel' b y k = Some r.
Proof.
  induction fuel as [|fuel IH]; intros fuel' b y k r H Hle; simpl in H; [discriminate|].
  destruct fuel' as [|fuel']; [lia|]. simpl.
  destruct (negb (board_get b (rand_rem rs k 9) y =? -1)).
  - apply IH with (fuel' := fuel') in H; [exact H | lia].
  - exact H.
Qed.

(** The loop returns as soon as a draw falls on an [EMPTY] cell. *)
Lemma draw_empty_hit :
  forall n b y k fuel,
    b (rand_rem rs (k + n) 9) y = -1 -> (n < fuel)%nat ->
    exists r, draw_empty rs fuel b y k = Some r.
Proof.
  induction n as [|n IH]; intros b y k fuel Hhit Hf;
    (destruct fuel as [|fuel]; [lia|]); simpl; unfold board_get.
  - rewrite Nat.add_0_r in Hhit. rewrite Hhit. simpl. eauto.
  - destruct (b (rand_rem rs k 9) y =? -1); simpl; [eauto|].
    apply IH; [|lia]. replace (S k + n)%nat with (k + S n)%nat by lia. exact Hhit.
Qed.

(** If a draw never falls on an [EMPTY] cell the loop never returns. *)
Lemma draw_empty_miss :
  forall fuel b y k,
    (forall n, b (rand_rem rs (k + n) 9) y <> -1) ->
    draw_empty rs fuel b y k = None.
Proof.
  induction fuel as [|fuel IH]; intros b y k Hmiss; simpl; [reflexivity|].
  unfold board_get.
  destruct (b (rand_rem rs k 9) y =? -1) eqn:E; simpl.
  - apply Z.eqb_eq in E. exfalso. apply (Hmiss 0%nat). now rewrite Nat.add_0_r.
  - apply IH. intros n. replace (S k + n)%nat with (k + S n)%nat by lia. apply Hmiss.
Qed.

(** [n] items of kind [v] placed on row [y]: the other rows are as before,
    every written cell was [EMPTY], and the counts of the row move by [n]. *)
Lemma place_spec :
  forall n v fuel y b k b' k',
    v <> -1 ->
    place rs n v fuel y b k = Some (b', k') ->
    (forall x y', y' <> y -> b' x y' = b x y') /\
    (forall x, b' x y = b x y \/ (b x y = -1 /\ b' x y = v)) /\
    (count_row b' y v = count_row b y v + n)%nat /\
    (count_row b' y EMPTY + n = count_row b y EMPTY)%nat /\
    (forall w, w <> v -> w <> -1 -> count_row b' y w = count_row b y w) /\
    (k <= k')%nat.
Proof.
  induction n as [|n IH]; intros v fuel y b k b' k' Hv H; simpl in H.
  - injection H as <- <-. repeat split; auto; lia.
  - destruct (draw_empty rs fuel b y k) as [[num k1]|] eqn:Hd; [|discriminate].
    apply draw_empty_spec in Hd. destruct Hd as (Hnum & Hcell & Hk).
    apply IH in H; [|exact Hv]. destruct H as (F1 & F2 & F3 & F4 & F5 & F6).
    pose proof (count_row_write b num y v v Hnum) as Wv.
    pose proof (count_row_write b num y v EMPTY Hnum) as We.
    rewrite Hcell in Wv, We. unfold EMPTY in *.
    rewrite Z.eqb_refl in Wv. rewrite Z.eqb_refl in We.
    replace (-1 =? v) with false in Wv by lia.
    replace (v =? -1) with false in We by lia.
    simpl indicator in *.
    repeat split.
    + intros x y' Hy. rewrite F1 by exact Hy. apply board_set_other. now right.
    + intros x. destruct (F2 x) as [E|[E1 E2]].
      * destruct (board_set_cases b num y v x y) as [(-> & _ & E')|(_ & E')];
          rewrite E' in E; [right; split; assumption | left; exact E].
      * destruct (board_set_cases b num y v x y) as [(-> & _ & E')|(_ & E')];
          rewrite E' in E1; [lia | right; split; assumption].
    + lia.
    + lia.
    + intros w Hw1 Hw2. rewrite F5 by assumption.
      pose proof (count_row_write b num y v w Hnum) as Ww.
      rewrite Hcell in Ww.
      replace (-1 =? w) with false in Ww by lia.
      replace (v =? w) with false in Ww by lia.
      simpl in Ww. lia.
    + lia.
Qed.

(** Lines 236-247 on a row: [blocks] cells turn from [EMPTY] to [BLOCK],
    then [stars] cells from [EMPTY] to [STAR]. *)
Lemma populate_spec :
  forall fuel y blocks stars b k b' k',
    0 <= blocks -> 0 <= stars ->
    populate rs fuel y blocks stars b k = Some (b', k') ->
    (forall x y', y' <> y -> b' x y' = b x y') /\
    (forall x, b' x y = b x y \/ (b x y = EMPTY /\ (b' x y = BLOCK \/ b' x y = STAR))) /\
    Z.of_nat (count_row b' y BLOCK) = Z.of_nat (count_row b y BLOCK) + blocks /\
    Z.of_nat (count_row b' y STAR) = Z.of_nat (count_row b y STAR) + stars /\
    Z.of_nat (count_row b' y EMPTY) + blocks + stars = Z.of_nat (count_row b y EMPTY).
Proof.
  intros fuel y blocks stars b k b' k' Hb Hs H. unfold populate in H.
  destruct (place rs (Z.to_nat blocks) 2 fuel y b k) as [[b1 k1]|] eqn:H1; [|discriminate].
  apply place_spec in H1; [|lia]. apply place_spec in H; [|lia].
  destruct H1 as (A1 & A2 & A3 & A4 & A5 & _).
  destruct H as (B1 & B2 & B3 & B4 & B5 & _).
  unfold EMPTY, STAR, BLOCK in *. repeat split.
  - intros x y' Hy. rewrite B1, A1; auto.
  - intros x. destruct (A2 x) as [E|[E1 E2]]; destruct (B2 x) as [E'|[E1' E2']].
    + left. congruence.
    + right. split; [congruence | now right].
    + right. split; [exact E1 | left; congruence].
    + lia.
  - rewrite (B5 2) by lia. lia.
  - rewrite B3. rewrite (A5 1) by lia. lia.
  - lia.
Qed.

End DrawFacts.

(** ** Fuel, and termination on fair sequences *)

Section Termination.

Variable rs : RandSeq.

Lemma place_mono :
  forall n v fuel fuel' y b k r,
    place rs n v fuel y b k = Some r -> (fuel <= fuel')%nat ->
    place rs n v fuel' y b k = Some r.
Proof.
  induction n as [|n IH]; intros v fuel fuel' y b k r H Hle; simpl in *; [exact H|].
  destruct (draw_empty rs fuel b y k) as [[num k1]|] eqn:Hd; [|discriminate].
  rewrite (draw_empty_mono rs fuel fuel' b y k (num, k1) Hd Hle).
  now apply IH with (fuel := fuel).
Qed.

Lemma populate_mono :
  forall fuel fuel' y blocks stars b k r,
    populate rs fuel y blocks stars b k = Some r -> (fuel <= fuel')%nat ->
    populate rs fuel' y blocks stars b k = Some r.
Proof.
  intros fuel fuel' y blocks stars b k r H Hle. unfold populate in *.
  destruct (place rs (Z.to_nat blocks) 2 fuel y b k) as [[b1 k1]|] eqn:H1; [|discriminate].
  rewrite (place_mono _ _ _ _ _ _ _ _ H1 Hle).
  now apply place_mono with (fuel := fuel).
Qed.

Lemma fill_row_mono :
  forall fuel fuel' i s r,
    fill_row rs fuel i s = Some r -> (fuel <= fuel')%nat -> fill_row rs fuel' i s = Some r.
Proof.
  intros fuel fuel' i [b k] r H Hle. unfold fill_row in *.
  now apply populate_mono with (fuel := fuel).
Qed.

Lemma fill_rows_mono :
  forall n i fuel fuel' s r,
    for_loop_opt n i (fill_row rs fuel) s = Some r -> (fuel <= fuel')%nat ->
    for_loop_opt n i (fill_row rs fuel') s = Some r.
Proof.
  induction n as [|n IH]; intros i fuel fuel' s r H Hle; simpl in *; [exact H|].
  destruct (fill_row rs fuel i s) as [s1|] eqn:H1; [|discriminate].
  rewrite (fill_row_mono _ _ _ _ _ H1 Hle).
  now apply IH with (fuel := fuel).
Qed.

Lemma respawn_mono :
  forall fuel fuel' b k r,
    respawn rs fuel b k = Some r -> (fuel <= fuel')%nat -> respawn rs fuel' b k = Some r.
Proof.
  intros fuel fuel' b k r H Hle. unfold respawn in *.
  now apply populate_mono with (fuel := fuel).
Qed.

Lemma Game_ctor_mono :
  forall fuel fuel' g0 k st,
    Game_ctor rs fuel g0 k = Some st -> (fuel <= fuel')%nat ->
    Game_ctor rs fuel' g0 k = Some st.
Proof.
  intros fuel fuel' g0 k st H Hle. unfold Game_ctor, for_range_opt in *.
  match type of H with
  | match ?e with _ => _ end = _ => destruct e as [[b2 k2]|] eqn:H1; [|discriminate]
  end.
  now rewrite (fill_rows_mono _ _ _ _ _ _ H1 Hle).
Qed.

Lemma update_mono :
  forall fuel fuel' g k st,
    update rs fuel g k = Some st -> (fuel <= fuel')%nat -> update rs fuel' g k = Some st.
Proof.
  intros fuel fuel' g k st H Hle. unfold update, movement, move_branch in *.
  destruct (game_over g =? 1); [exact H|].
  repeat match goal with
         | |- context [if ?c then _ else _] => destruct c
         end;
    try exact H;
    match type of H with
    | context [respawn rs fuel ?b ?kk] =>
        destruct (respawn rs fuel b kk) as [[b2 k2]|] eqn:H1; [|discriminate];
        now rewrite (respawn_mono _ _ _ _ _ H1 Hle)
    end.
Qed.

Hypothesis rs_fair : fair rs.

(** On a fair sequence the rejection loop returns whenever the row has an
    [EMPTY] cell. *)
Lemma draw_empty_terminates (b : Board) (y : Z) (k : nat) :
  (0 < count_row b y EMPTY)%nat ->
  exists fuel num k', draw_empty rs fuel b y k = Some (num, k').
Proof.
  intros Hc. destruct (count_row_pos_empty b y Hc) as (c & Hc1 & Hc2).
  destruct (rs_fair k c Hc1) as (n & Hn).
  destruct (draw_empty_hit rs n b y k (S n)) as ([num k'] & Hr); [now rewrite Hn | lia |].
  now exists (S n), num, k'.
Qed.

Lemma place_terminates :
  forall n v y b k,
    v <> -1 -> (n <= count_row b y EMPTY)%nat ->
    exists fuel r, place rs n v fuel y b k = Some r.
Proof.
  induction n as [|n IH]; intros v y b k Hv Hc.
  - exists 0%nat, (b, k). reflexivity.
  - destruct (draw_empty_terminates b y k) as (f1 & num & k1 & Hd); [lia|].
    destruct (draw_empty_spec rs _ _ _ _ _ _ Hd) as (Hnum & Hcell & _).
    pose proof (count_row_write b num y v EMPTY Hnum) as We.
    rewrite Hcell in We. unfold EMPTY in *. rewrite Z.eqb_refl in We.
    replace (v =? -1) with false in We by lia. simpl indicator in We.
    destruct (IH v y (board_set b num y v) k1 Hv) as (f2 & r & Hp); [lia|].
    exists (Nat.max f1 f2), r. simpl.
    rewrite (draw_empty_mono rs f1 (Nat.max f1 f2) b y k (num, k1) Hd) by lia.
    apply place_mono with (fuel := f2); [exact Hp | lia].
Qed.

(** At most [blocks + stars] cells are taken from the row; if it has that
    many [EMPTY] cells both loops return. *)
Lemma populate_terminates :
  forall y blocks stars b k,
    0 <= blocks -> 0 <= stars ->
    blocks + stars <= Z.of_nat (count_row b y EMPTY) ->
    exists fuel r, populate rs fuel y blocks stars b k = Some r.
Proof.
  intros y blocks stars b k Hb Hs Hc.
  destruct (place_terminates (Z.to_nat blocks) 2 y b k) as (f1 & [b1 k1] & H1); [lia|lia|].
  assert (Hv : 2 <> -1) by lia.
  destruct (place_spec rs _ _ _ _ _ _ _ _ Hv H1) as (_ & _ & _ & A4 & _).
  destruct (place_terminates (Z.to_nat stars) 1 y b1 k1) as (f2 & r & H2); [lia|lia|].
  exists (Nat.max f1 f2), r. unfold populate.
  rewrite (place_mono _ _ _ (Nat.max f1 f2) _ _ _ _ H1) by lia.
  apply place_mono with (fuel := f2); [exact H2 | lia].
Qed.

Lemma draws_small (k : nat) :
  1 <= rand_rem rs k 3 + 1 <= 3 /\ 0 <= rand_rem rs (S k) 2 <= 1.
Proof.
  pose proof (rand_rem_range rs k 3). pose proof (rand_rem_range rs (S k) 2). lia.
Qed.

Lemma respawn_terminates (b : Board) (k : nat) :
  exists fuel r, respawn rs fuel b k = Some r.
Proof.
  unfold respawn. destruct (draws_small k) as [Hb Hs].
  apply populate_terminates; [lia | lia |].
  destruct (count_row_all_empty (clear_far_row b) 8) as (E & _).
  - intros x Hx. rewrite clear_far_row_spec.
    replace (0 <=? x) with true by lia. replace (x <? board_size_x) with true by lia.
    reflexivity.
  - rewrite E. lia.
Qed.

Lemma fill_rows_terminate :
  forall n i s,
    (forall x y, 0 <= x < board_size_x -> i <= y < i + Z.of_nat n -> fst s x y = EMPTY) ->
    exists fuel r, for_loop_opt n i (fill_row rs fuel) s = Some r.
Proof.
  induction n as [|n IH]; intros i [b k] He.
  - exists 0%nat, (b, k). reflexivity.
  - simpl fst in He. destruct (draws_small k) as [Hb Hs].
    destruct (populate_terminates i (rand_rem rs k 3 + 1) (rand_rem rs (S k) 2) b (S (S k)))
      as (f1 & [b1 k1] & H1); [lia | lia | |].
    { destruct (count_row_all_empty b i) as (E & _); [|rewrite E; lia].
      intros x Hx. apply He; [exact Hx | lia]. }
    assert (Hb0 : 0 <= rand_rem rs k 3 + 1) by lia.
    assert (Hs0 : 0 <= rand_rem rs (S k) 2) by lia.
    destruct (populate_spec rs _ _ _ _ _ _ _ _ Hb0 Hs0 H1) as (F1 & _).
    destruct (IH (i + 1) (b1, k1)) as (f2 & r & H2).
    { intros x y Hx Hy. simpl. rewrite F1 by lia. apply He; [exact Hx | lia]. }
    exists (Nat.max f1 f2), r. cbn [for_loop_opt].
    assert (Hfr : fill_row rs (Nat.max f1 f2) i (b, k) = Some (b1, k1)).
    { apply fill_row_mono with (fuel := f1); [exact H1 | lia]. }
    rewrite Hfr. apply fill_rows_mono with (fuel := f2); [exact H2 | lia].
Qed.

Lemma Game_ctor_terminates (g0 : Game) (k : nat) :
  exists fuel st, Game_ctor rs fuel g0 k = Some st.
Proof.
  destruct (fill_rows_terminate (Z.to_nat (board_size_y - 2)) 2
              (board_set (clear_board (board g0)) 4 0 0, k)) as (fuel & [b2 k2] & H).
  - intros x y Hx Hy. simpl.
    rewrite board_set_other by (right; lia).
    apply clear_board_spec; unfold board_size_y in *; simpl in Hy; lia.
  - exists fuel. unfold Game_ctor, for_range_opt. cbn [board set_board set_ship_x set_ship_y].
    rewrite H. eauto.
Qed.

Lemma update_terminates (g : Game) (k : nat) :
  exists fuel st, update rs fuel g k = Some st.
Proof.
  unfold update, movement, move_branch.
  destruct (game_over g =? 1); [exists 0%nat; eauto|].
  repeat match goal with
         | |- context [if ?c then _ else _] => destruct c
         end;
    try (exists 0%nat; eauto; fail);
    match goal with
    | |- context [respawn rs _ ?b ?kk] =>
        destruct (respawn_terminates b kk) as (fuel & [b2 k2] & H);
        exists fuel; rewrite H; eauto
    end.
Qed.

End Termination.

(** ** The phases of a tick *)

Lemma collide_frame (g : Game) :
  board (collide g) = board g /\ ship_x (collide g) = ship_x g /\
  ship_y (collide g) = ship_y g /\ controls (collide g) = controls g.
Proof.
  unfold collide, board_get.
  destruct (board g (ship_x g) (ship_y g + 1) =? 1); cbn;
    destruct (board g (ship_x g) (ship_y g + 1) =? 2); cbn;
    try destruct (lives g - 1 =? 0); cbn;
    repeat split; reflexivity.
Qed.

(** The cell the two tests read, and what they do to the counters. *)
Lemma collide_spec (g : Game) :
  let c := board_get (board g) (ship_x g) (ship_y g + 1) in
  (c = STAR -> score (collide g) = score g + 1 /\ lives (collide g) = lives g /\
               game_over (collide g) = game_over g) /\
  (c = BLOCK -> score (collide g) = score g /\ lives (collide g) = lives g - 1 /\
                game_over (collide g) = (if lives g - 1 =? 0 then 1 else game_over g)) /\
  (c <> STAR -> c <> BLOCK ->
   score (collide g) = score g /\ lives (collide g) = lives g /\
   game_over (collide g) = game_over g).
Proof.
  unfold collide, board_get, STAR, BLOCK. cbn zeta.
  destruct (board g (ship_x g) (ship_y g + 1) =? 1) eqn:E1; cbn;
    rewrite ?E1; destruct (board g (ship_x g) (ship_y g + 1) =? 2) eqn:E2; cbn;
    try destruct (lives g - 1 =? 0) eqn:E3; cbn;
    repeat split; intros; try reflexivity; lia.
Qed.

Lemma move_ship_board (g : Game) (x' x y : Z) :
  board (move_ship g x') x y =
    if (x =? x') && (y =? ship_y g) then 0
    else if (x =? ship_x g) && (y =? ship_y g) then -1
    else board g x y.
Proof. reflexivity. Qed.

Lemma respawn_spec (rs : RandSeq) (fuel : nat) (b : Board) (k : nat) (b' : Board) (k' : nat) :
  respawn rs fuel b k = Some (b', k') ->
  (forall x y, y <> 8 -> b' x y = b x y) /\
  Z.of_nat (count_row b' 8 BLOCK) = rand_rem rs k 3 + 1 /\
  Z.of_nat (count_row b' 8 STAR) = rand_rem rs (S k) 2 /\
  (count_row b' 8 EMPTY + count_row b' 8 BLOCK + count_row b' 8 STAR = 9)%nat.
Proof.
  unfold respawn. intros H. destruct (draws_small rs k) as [Hb Hs].
  apply populate_spec in H; [|lia|lia].
  destruct H as (F1 & F2 & F3 & F4 & F5).
  destruct (count_row_all_empty (clear_far_row b) 8) as (E1 & E2 & E3).
  { intros x Hx. rewrite clear_far_row_spec.
    replace (0 <=? x) with true by lia. replace (x <? board_size_x) with true by lia.
    reflexivity. }
  repeat split.
  - intros x y Hy. rewrite F1 by exact Hy. rewrite clear_far_row_spec.
    replace (y =? 8) with false by lia. reflexivity.
  - lia.
  - lia.
  - lia.
Qed.

(** What a branch of the [if]/[else if] leaves behind. *)
Lemma move_branch_spec (rs : RandSeq) (fuel : nat) (x' : Z) (g : Game) (k : nat)
      (g' : Game) (k' : nat) :
  move_branch rs fuel x' g k = Some (g', k') ->
  let g1 := collide (move_ship g x') in
  score g' = score g1 /\ lives g' = lives g1 /\ game_over g' = game_over g1 /\
  ship_x g' = x' /\ ship_y g' = ship_y g /\ controls g' = controls g /\
  respawn rs fuel (move_blocks_down (board (move_ship g x'))) k = Some (board g', k').
Proof.
  unfold move_branch. intros H.
  destruct (collide_frame (move_ship g x')) as (Cb & Cx & Cy & Cc).
  rewrite Cb in H.
  destruct (respawn rs fuel (move_blocks_down (board (move_ship g x'))) k)
    as [[b2 k2]|] eqn:Hr; [|discriminate].
  injection H as <- <-. cbn. rewrite Cx, Cy, Cc. cbn. repeat split; reflexivity.
Qed.

(** The code's guards ([ship_x != 0], [ship_x != board_size.x - 1]) and the
    specification's wording ([ship_x > 0], [ship_x < 8]) select the same
    branch when the ship is on the board. *)
Lemma movement_moves (rs : RandSeq) (fuel : nat) (g : Game) (k : nat) (x' : Z) :
  0 <= ship_x g < board_size_x -> ship_moves g x' ->
  movement rs fuel g k = move_branch rs fuel x' g k.
Proof.
  unfold board_size_x, ship_moves, movement. intros Hx Hm.
  destruct Hm as [(Hl & Hp & ->)|(Hn & Hr & Hp & ->)].
  - rewrite Hl. replace (ship_x g =? 0) with false by lia. reflexivity.
  - rewrite Hr. replace (ship_x g =? board_size_x - 1) with false
      by (unfold board_size_x; lia).
    destruct (Controls.left (controls g)) eqn:El; cbn; [|reflexivity].
    destruct (ship_x g =? 0) eqn:E0; cbn; [reflexivity|].
    exfalso. apply Hn. split; [reflexivity | lia].
Qed.

Lemma end_of_tick_spec (g : Game) :
  board (end_of_tick g) = board g /\ ship_x (end_of_tick g) = ship_x g /\
  ship_y (end_of_tick g) = ship_y g /\ score (end_of_tick g) = score g /\
  lives (end_of_tick g) = lives g /\
  game_over (end_of_tick g) = (if score g =? 49 then 1 else game_over g) /\
  controls (end_of_tick g) = Controls.mk false false.
Proof. unfold end_of_tick. destruct (score g =? 49); cbn; repeat split; reflexivity. Qed.

(** ** The ship's row *)

Lemma move_branch_keeps_ship_row (rs : RandSeq) (fuel : nat) (x' : Z) (g : Game) (k : nat)
      (g' : Game) (k' : nat) :
  ship_on_board g -> ship_row_ok g -> 0 <= x' < board_size_x ->
  move_branch rs fuel x' g k = Some (g', k') ->
  ship_on_board g' /\ ship_row_ok g'.
Proof.
  intros [Hx Hy] Hrow Hx' H.
  destruct (move_branch_spec _ _ _ _ _ _ _ H) as (_ & _ & _ & Sx & Sy & _ & Hr).
  apply respawn_spec in Hr. destruct Hr as (F & _).
  split; [split; [now rewrite Sx | now rewrite Sy]|].
  intros x Hxr. unfold board_get. rewrite F by lia.
  rewrite move_blocks_down_spec. replace (1 <=? 0) with false by reflexivity. cbn [andb].
  rewrite move_ship_board. rewrite Hy, Sx. rewrite Z.eqb_refl, !andb_true_r.
  destruct (x =? x') eqn:E; [reflexivity|].
  destruct (x =? ship_x g) eqn:E2; [reflexivity|].
  specialize (Hrow x Hxr). unfold board_get in Hrow. rewrite E2 in Hrow. exact Hrow.
Qed.

Lemma update_keeps_ship_row (rs : RandSeq) (fuel : nat) (g : Game) (k : nat)
      (g' : Game) (k' : nat) :
  ship_on_board g -> ship_row_ok g ->
  update rs fuel g k = Some (g', k') ->
  ship_on_board g' /\ ship_row_ok g'.
Proof.
  intros Hon Hrow H. unfold update in H.
  destruct (game_over g =? 1); [injection H as <- <-; now split|].
  destruct (movement rs fuel g k) as [[g1 k1]|] eqn:Hm; [|discriminate].
  injection H as <- <-.
  assert (H1 : ship_on_board g1 /\ ship_row_ok g1).
  { unfold movement in Hm. destruct Hon as [Hx Hy]. unfold board_size_x in *.
    destruct (Controls.left (controls g) && negb (ship_x g =? 0)) eqn:E1.
    - apply andb_prop in E1. destruct E1 as [_ E1]. apply negb_true_iff in E1.
      apply move_branch_keeps_ship_row in Hm; auto; unfold ship_on_board, board_size_x; lia.
    - destruct (Controls.right (controls g) && negb (ship_x g =? 9 - 1)) eqn:E2.
      + apply andb_prop in E2. destruct E2 as [_ E2]. apply negb_true_iff in E2.
        apply move_branch_keeps_ship_row in Hm; auto; unfold ship_on_board, board_size_x; lia.
      + injection Hm as <- <-. split; [split; assumption | assumption]. }
  destruct H1 as [[Hx Hy] Hr].
  destruct (end_of_tick_spec g1) as (Eb & Ex & Ey & _).
  unfold ship_on_board, ship_row_ok. rewrite Eb, Ex, Ey. auto.
Qed.

Lemma handle_event_frame (evt : SDL_Event) (g : Game) :
  let g' := snd (handle_event evt g) in
  board g' = board g /\ ship_x g' = ship_x g /\ ship_y g' = ship_y g /\
  score g' = score g /\ lives g' = lives g /\ game_over g' = game_over g.
Proof.
  unfold handle_event.
  destruct (is_keydown (evt_type evt) && key_repeat evt); cbn; [tauto|].
  destruct (is_keydown (evt_type evt) || is_keyup (evt_type evt)); cbn; [|tauto].
  destruct (key_scancode evt); cbn; tauto.
Qed.

Lemma Game_ctor_ship_row (rs : RandSeq) (fuel : nat) (g0 : Game) (k : nat)
      (g : Game) (k' : nat) :
  Game_ctor rs fuel g0 k = Some (g, k') -> ship_on_board g /\ ship_row_ok g.
Proof.
  unfold Game_ctor, for_range_opt. cbn [board ship_x ship_y set_board set_ship_x set_ship_y].
  set (b1 := board_set (clear_board (board g0)) 4 0 0).
  intros H.
  destruct (for_loop_opt (Z.to_nat (board_size_y - 2)) 2 (fill_row rs fuel) (b1, k))
    as [[b2 k2]|] eqn:Hl; [|discriminate].
  injection H as <- <-.
  pose (P := fun (i : Z) (s : Board * nat) => forall x y, y < 2 -> fst s x y = b1 x y).
  assert (HP : P (2 + Z.of_nat (Z.to_nat (board_size_y - 2))) (b2, k2)).
  { apply (for_loop_opt_inv P (fill_row rs fuel) _ 2 (b1, k) (b2, k2)); [| |exact Hl].
    - intros x y _. reflexivity.
    - intros i [b ki] [b' ki'] Hi Hb Hf x y Hy. cbn [fst] in *.
      unfold fill_row in Hf. destruct (draws_small rs ki) as [D1 D2].
      apply populate_spec in Hf; [|lia|lia]. destruct Hf as (F & _).
      rewrite F by lia. now apply Hb. }
  split; [split; cbn; unfold board_size_x; lia|].
  intros x Hx. cbn. unfold board_get. specialize (HP x 0 ltac:(lia)). cbn [fst] in HP.
  rewrite HP. unfold b1.
  destruct (board_set_cases (clear_board (board g0)) 4 0 0 x 0) as [(-> & _ & ->)|(Hne & ->)].
  - reflexivity.
  - replace (x =? 4) with false by lia. apply clear_board_spec; unfold board_size_y; lia.
Qed.

Lemma reachable_ship_row (rs : RandSeq) (g0 : Game) (st : Game * nat) :
  reachable rs g0 st -> ship_on_board (fst st) /\ ship_row_ok (fst st).
Proof.
  induction 1 as [fuel [g k] Hc | evt g k Hr IH | fuel g k [g' k'] Hr IH Hu]; cbn [fst] in *.
  - now apply Game_ctor_ship_row in Hc.
  - destruct (handle_event_frame evt g) as (Eb & Ex & Ey & _). cbn zeta in *.
    unfold ship_on_board, ship_row_ok. rewrite Eb, Ex, Ey. exact IH.
  - destruct IH as [I1 I2]. now apply update_keeps_ship_row in Hu.
Qed.

(** ** Collision, win test and frame of a tick *)

(** C1.  In a tick in which the ship moves to column [x'], the two tests of
    the collision read the cell of row 1 in column [x'] as it was before the
    tick, hence before the rows are shifted.  If that cell is [STAR] the
    score goes up by exactly 1 and the lives stay; if it is [BLOCK] the
    lives go down by exactly 1, the score stays, and the collision sets
    [game_over] exactly when the lives have reached 0 (at the end of the
    tick too, unless the score stood at 49); if it is [EMPTY] score and
    lives are unchanged. *)
Theorem C1_collision_reads_row_1
        (rs : RandSeq) (fuel : nat) (g : Game) (k : nat) (g' : Game) (k' : nat) (x' : Z) :
  game_over g <> 1 -> ship_on_board g -> ship_moves g x' ->
  update rs fuel g k = Some (g', k') ->
  let c := board_get (board g) x' 1 in
  let g1 := move_ship g x' in
  board_get (board g1) (ship_x g1) (ship_y g1 + 1) = c /\
  (c = STAR -> score g' = score g + 1 /\ lives g' = lives g) /\
  (c = BLOCK -> lives g' = lives g - 1 /\ score g' = score g /\
                (game_over (collide g1) = 1 <-> lives g' = 0) /\
                (score g <> 49 -> (game_over g' = 1 <-> lives g' = 0))) /\
  (c = EMPTY -> score g' = score g /\ lives g' = lives g).
Proof.
  intros Hgo [Hx Hy] Hm Hu c g1.
  unfold update in Hu. replace (game_over g =? 1) with false in Hu by lia.
  rewrite (movement_moves rs fuel g k x' Hx Hm) in Hu.
  destruct (move_branch rs fuel x' g k) as [[gm km]|] eqn:Hb; [|discriminate].
  injection Hu as <- <-.
  destruct (move_branch_spec _ _ _ _ _ _ _ Hb) as (Ms & Ml & Mg & _).
  destruct (end_of_tick_spec gm) as (_ & _ & _ & Es & El & Eg & _).
  fold g1 in Ms, Ml, Mg.
  assert (Hcell : board_get (board g1) (ship_x g1) (ship_y g1 + 1) = c).
  { unfold g1, c, board_get. rewrite move_ship_board. cbn [move_ship ship_x ship_y set_board set_ship_x].
    rewrite Hy. rewrite Z.eqb_refl. cbn.
    destruct (x' =? ship_x g); reflexivity. }
  destruct (collide_spec g1) as (CS & CB & CE). cbn zeta in CS, CB, CE.
  rewrite Hcell in CS, CB, CE.
  assert (M0 : score (move_ship g x') = score g /\ lives (move_ship g x') = lives g /\
               game_over (move_ship g x') = game_over g) by (repeat split; reflexivity).
  fold g1 in M0. destruct M0 as (M1 & M2 & M3).
  split; [exact Hcell|]. rewrite Es, El, Eg, Ms, Ml, Mg.
  split; [|split].
  - intros Hc. destruct (CS Hc) as (A & B & _). lia.
  - intros Hc. destruct (CB Hc) as (A & B & C). rewrite A, B, C, M1, M2, M3.
    split; [reflexivity|]. split; [reflexivity|].
    destruct (lives g - 1 =? 0) eqn:E.
    + split; [split; intros; [lia | reflexivity]|].
      intros _. destruct (score g =? 49); split; intros; [lia | reflexivity | lia | reflexivity].
    + split; [split; intros; lia|].
      intros Hs. replace (score g =? 49) with false by lia. split; intros; lia.
  - intros Hc. unfold EMPTY, STAR, BLOCK in *. destruct CE as (A & B & _); lia.
Qed.

Lemma C1_witness :
  exists g' k',
    update seq_count 9 sample_right 0 = Some (g', k') /\
    board_get (board sample_right) 5 1 = BLOCK /\
    lives g' = lives sample_right - 1 /\ (game_over g' = 1 <-> lives g' = 0).
Proof.
  eexists. eexists. split; [reflexivity|].
  split; [reflexivity|].
  assert (Hgo : game_over sample_right <> 1) by (cbn; lia).
  assert (Hon : ship_on_board sample_right) by (unfold ship_on_board, board_size_x; cbn; lia).
  assert (Hm : ship_moves sample_right 5).
  { right. cbn. split; [intros [H _]; discriminate|]. repeat split; lia. }
  destruct (C1_collision_reads_row_1 seq_count 9 sample_right 0 _ _ 5 Hgo Hon Hm eq_refl)
    as (_ & _ & HB & _).
  destruct (HB eq_refl) as (H1 & _ & _ & H2).
  split; [exact H1 | apply H2; cbn; lia].
Defined.

(** C2.  When [game_over] is set, [update] returns at once: the board,
    [ship_x], the score, the lives, [game_over] and both pending flags are
    what they were, and no random number is drawn. *)
Theorem C2_update_after_game_over
        (rs : RandSeq) (fuel : nat) (g : Game) (k : nat) :
  game_over g = 1 -> update rs fuel g k = Some (g, k).
Proof. intros H. unfold update. rewrite H. reflexivity. Qed.

Lemma C2_witness : update seq_count 0 sample_over 7 = Some (sample_over, 7%nat).
Proof. apply (C2_update_after_game_over seq_count 0 sample_over 7). reflexivity. Defined.

(** C3, as stated, fails: in a state where the game is over, [update]
    returns before the flags are reset, and a pending left stays pending. *)
Lemma C3_counterexample :
  exists g',
    update seq_count 9 sample_over 0 = Some (g', 0%nat) /\
    Controls.left (controls g') = true.
Proof. exists sample_over. split; reflexivity. Qed.

(** C3, amended.  After a call to [update] on a state in which [game_over]
    is not set, both pending flags are false; on a state in which it is set
    the flags are left as they were. *)
Theorem C3_flags_after_update
        (rs : RandSeq) (fuel : nat) (g : Game) (k : nat) (g' : Game) (k' : nat) :
  update rs fuel g k = Some (g', k') ->
  (game_over g <> 1 ->
   Controls.left (controls g') = false /\ Controls.right (controls g') = false) /\
  (game_over g = 1 -> controls g' = controls g).
Proof.
  intros Hu. split; intros Hgo.
  - unfold update in Hu. replace (game_over g =? 1) with false in Hu by lia.
    destruct (movement rs fuel g k) as [[g1 k1]|]; [|discriminate].
    injection Hu as <- <-.
    destruct (end_of_tick_spec g1) as (_ & _ & _ & _ & _ & _ & Ec).
    rewrite Ec. split; reflexivity.
  - unfold update in Hu. rewrite Hgo in Hu. now injection Hu as <- <-.
Qed.

Lemma C3_witness :
  exists g' k',
    update seq_count 9 sample_left 0 = Some (g', k') /\
    Controls.left (controls g') = false /\ Controls.right (controls g') = false.
Proof.
  eexists. eexists. split; [reflexivity|].
  apply (C3_flags_after_update seq_count 9 sample_left 0 _ _ eq_refl). cbn. lia.
Defined.

(** ** The row shift and the respawn *)

(** C4.  In a tick in which the ship moves to column [x'] (the ship's row
    holding only the ship beforehand): every row [j - 1], [j] in 2..8, holds
    afterwards what row [j] held before the tick; row 0 holds the ship in
    column [x'] and [EMPTY] elsewhere; and row 8, whatever it held, consists
    of [rand() % 3 + 1] (between 1 and 3) [BLOCK] cells, [rand() % 2] (0 or
    1) [STAR] cells and [EMPTY] cells otherwise, so that the placed items
    sit in distinct columns. *)
Theorem C4_shift_and_respawn
        (rs : RandSeq) (fuel : nat) (g : Game) (k : nat) (g' : Game) (k' : nat) (x' : Z) :
  game_over g <> 1 -> ship_on_board g -> ship_row_ok g -> ship_moves g x' ->
  update rs fuel g k = Some (g', k') ->
  (forall x j, 0 <= x < board_size_x -> 2 <= j <= 8 ->
               board_get (board g') x (j - 1) = board_get (board g) x j) /\
  (ship_x g' = x' /\
   forall x, 0 <= x < board_size_x ->
             board_get (board g') x 0 = if x =? x' then SHIP else EMPTY) /\
  (Z.of_nat (count_row (board g') 8 BLOCK) = rand_rem rs k 3 + 1 /\
   Z.of_nat (count_row (board g') 8 STAR) = rand_rem rs (S k) 2 /\
   (1 <= count_row (board g') 8 BLOCK <= 3)%nat /\
   (count_row (board g') 8 STAR <= 1)%nat /\
   (count_row (board g') 8 EMPTY + count_row (board g') 8 BLOCK
    + count_row (board g') 8 STAR = 9)%nat).
Proof.
  intros Hgo [Hx Hy] Hrow Hm Hu.
  unfold update in Hu. replace (game_over g =? 1) with false in Hu by lia.
  rewrite (movement_moves rs fuel g k x' Hx Hm) in Hu.
  destruct (move_branch rs fuel x' g k) as [[gm km]|] eqn:Hb; [|discriminate].
  injection Hu as <- <-.
  destruct (move_branch_spec _ _ _ _ _ _ _ Hb) as (_ & _ & _ & Sx & _ & _ & Hr).
  destruct (end_of_tick_spec gm) as (Eb & Ex & _).
  rewrite Eb, Ex. clear Eb Ex.
  apply respawn_spec in Hr. destruct Hr as (F & CB & CS & CT).
  destruct (draws_small rs k) as [D1 D2].
  unfold board_get, board_size_x in *.
  split; [|split].
  - intros x j Hxr Hj. rewrite F by lia. rewrite move_blocks_down_spec.
    unfold board_size_x, board_size_y.
    replace (1 <=? j - 1) with true by lia. replace (j - 1 <? 9 - 1) with true by lia.
    replace (0 <=? x) with true by lia. replace (x <? 9) with true by lia. cbn [andb].
    replace (j - 1 + 1) with j by lia. rewrite move_ship_board. rewrite Hy.
    replace (j =? 0) with false by lia. now rewrite !andb_false_r.
  - split; [exact Sx|]. intros x Hxr. rewrite F by lia. rewrite move_blocks_down_spec.
    replace (1 <=? 0) with false by reflexivity. cbn [andb].
    rewrite move_ship_board. rewrite Hy, Z.eqb_refl, !andb_true_r.
    destruct (x =? x'); [reflexivity|].
    specialize (Hrow x Hxr). unfold board_get in Hrow.
    destruct (x =? ship_x g); [reflexivity | exact Hrow].
  - repeat split; lia.
Qed.

Lemma C4_witness :
  exists g' k',
    update seq_count 9 sample_left 0 = Some (g', k') /\
    board_get (board g') 3 1 = BLOCK /\
    board_get (board g') 3 0 = SHIP /\
    count_row (board g') 8 BLOCK = 1%nat /\ count_row (board g') 8 STAR = 1%nat.
Proof.
  eexists. eexists. split; [reflexivity|].
  assert (Hgo : game_over sample_left <> 1) by (cbn; lia).
  assert (Hon : ship_on_board sample_left) by (unfold ship_on_board, board_size_x; cbn; lia).
  assert (Hrow : ship_row_ok sample_left).
  { intros x Hx. unfold board_size_x in Hx.
    assert (Hc : x = 0 \/ x = 1 \/ x = 2 \/ x = 3 \/ x = 4 \/ x = 5 \/ x = 6 \/ x = 7 \/ x = 8)
      by lia.
    repeat (destruct Hc as [->|Hc]; [reflexivity|]). subst x. reflexivity. }
  assert (Hm : ship_moves sample_left 3) by (left; cbn; repeat split; lia).
  destruct (C4_shift_and_respawn seq_count 9 sample_left 0 _ _ 3 Hgo Hon Hrow Hm eq_refl)
    as (H1 & (_ & H2) & H3 & H4 & _).
  split; [exact (H1 3 2 ltac:(unfold board_size_x; lia) ltac:(lia))|].
  split; [exact (H2 3 ltac:(unfold board_size_x; lia))|].
  split; [apply Nat2Z.inj; exact H3 | apply Nat2Z.inj; exact H4].
Defined.

(** ** The win test *)

(** C5.  On a state that is not game over: if the movement phase of the
    tick ends with the score at 49, [update] returns with [game_over] set;
    in particular a tick that moves the ship onto a [STAR] at score 48 ends
    with score 49 and [game_over] set. *)
Theorem C5_score_49_ends_game
        (rs : RandSeq) (fuel : nat) (g : Game) (k : nat) :
  game_over g <> 1 ->
  (forall g1 k1, movement rs fuel g k = Some (g1, k1) -> score g1 = 49 ->
                 exists g', update rs fuel g k = Some (g', k1) /\
                            score g' = 49 /\ game_over g' = 1) /\
  (forall x' g' k', ship_on_board g -> ship_moves g x' ->
                    board_get (board g) x' 1 = STAR -> score g = 48 ->
                    update rs fuel g k = Some (g', k') ->
                    score g' = 49 /\ game_over g' = 1).
Proof.
  intros Hgo.
  assert (Hfirst : forall g1 k1, movement rs fuel g k = Some (g1, k1) -> score g1 = 49 ->
                                 exists g', update rs fuel g k = Some (g', k1) /\
                                            score g' = 49 /\ game_over g' = 1).
  { intros g1 k1 Hm Hs. exists (end_of_tick g1). unfold update.
    replace (game_over g =? 1) with false by lia. rewrite Hm.
    destruct (end_of_tick_spec g1) as (_ & _ & _ & Es & _ & Eg & _).
    rewrite Es, Eg, Hs. repeat split; reflexivity. }
  split; [exact Hfirst|].
  intros x' g' k' [Hx Hy] Hm Hc Hs Hu.
  pose proof Hu as Hu'. unfold update in Hu'.
  replace (game_over g =? 1) with false in Hu' by lia.
  destruct (movement rs fuel g k) as [[gm km]|] eqn:Hmv; [|discriminate].
  injection Hu' as <- <-.
  rewrite (movement_moves rs fuel g k x' Hx Hm) in Hmv.
  destruct (move_branch_spec _ _ _ _ _ _ _ Hmv) as (Ms & _).
  destruct (collide_spec (move_ship g x')) as (CS & _). cbn zeta in CS.
  assert (Hcell : board_get (board (move_ship g x')) (ship_x (move_ship g x'))
                            (ship_y (move_ship g x') + 1) = STAR).
  { unfold board_get in *. rewrite move_ship_board.
    cbn [move_ship ship_x ship_y set_board set_ship_x].
    rewrite Hy, Z.eqb_refl. cbn. destruct (x' =? ship_x g); exact Hc. }
  destruct (CS Hcell) as (A & _).
  assert (Hs1 : score gm = 49) by (rewrite Ms, A; cbn; lia).
  destruct (end_of_tick_spec gm) as (_ & _ & _ & Es & _ & Eg & _).
  rewrite Es, Eg, Hs1. split; reflexivity.
Qed.

Lemma C5_witness :
  exists g' k',
    update seq_count 9 sample_left 0 = Some (g', k') /\ score g' = 49 /\ game_over g' = 1.
Proof.
  eexists. eexists. split; [reflexivity|].
  assert (Hgo : game_over sample_left <> 1) by (cbn; lia).
  assert (Hon : ship_on_board sample_left) by (unfold ship_on_board, board_size_x; cbn; lia).
  assert (Hm : ship_moves sample_left 3) by (left; cbn; repeat split; lia).
  destruct (C5_score_49_ends_game seq_count 9 sample_left 0 Hgo) as (_ & H).
  exact (H 3 _ _ Hon Hm eq_refl eq_refl eq_refl).
Defined.

(** ** Ticks without movement *)

Lemma movement_none (rs : RandSeq) (fuel : nat) (g : Game) (k : nat) :
  Controls.left (controls g) && negb (ship_x g =? 0) = false ->
  Controls.right (controls g) && negb (ship_x g =? board_size_x - 1) = false ->
  movement rs fuel g k = Some (g, k).
Proof. intros H1 H2. unfold movement. now rewrite H1, H2. Qed.

Lemma update_no_movement (rs : RandSeq) (fuel : nat) (g : Game) (k : nat) :
  game_over g = 1 \/ movement rs fuel g k = Some (g, k) ->
  exists g', update rs fuel g k = Some (g', k) /\
             board g' = board g /\ ship_x g' = ship_x g /\
             score g' = score g /\ lives g' = lives g.
Proof.
  intros H. unfold update. destruct (game_over g =? 1) eqn:E.
  - exists g. repeat split; reflexivity.
  - destruct H as [H|H]; [lia|]. rewrite H. exists (end_of_tick g).
    destruct (end_of_tick_spec g) as (Eb & Ex & _ & Es & El & _).
    repeat split; assumption.
Qed.

(** C7, as stated, fails: at the left edge with both keys pending the left
    move is refused and the [else if] moves the ship right; the rows shift,
    row 8 is respawned and a block is hit. *)
Lemma C7_counterexample :
  Controls.left (controls sample_both) = true /\ ship_x sample_both = 0 /\
  exists g' k',
    update seq_count 9 sample_both 0 = Some (g', k') /\
    ship_x g' = 1 /\ lives g' = lives sample_both - 1 /\
    board_get (board sample_both) 1 1 = BLOCK /\ board_get (board g') 1 1 = STAR /\
    k' = 4%nat.
Proof.
  split; [reflexivity|]. split; [reflexivity|].
  eexists. eexists. split; [reflexivity|]. repeat split; reflexivity.
Qed.

(** C7, amended.  [update] with the left key pending at [ship_x = 0], or
    the right key pending at [ship_x = 8], while the other key is not
    pending (or the game is over), returns without a row shift and without
    a respawn: the board, [ship_x], the score and the lives are unchanged and
    no random number is drawn. *)
Theorem C7_blocked_at_the_edge
        (rs : RandSeq) (fuel : nat) (g : Game) (k : nat) :
  (Controls.left (controls g) = true /\ ship_x g = 0 /\
   (Controls.right (controls g) = false \/ game_over g = 1)) \/
  (Controls.right (controls g) = true /\ ship_x g = 8 /\
   (Controls.left (controls g) = false \/ game_over g = 1)) ->
  exists g', update rs fuel g k = Some (g', k) /\
             board g' = board g /\ ship_x g' = ship_x g /\
             score g' = score g /\ lives g' = lives g.
Proof.
  intros H. apply update_no_movement.
  destruct H as [(Hl & Hx & [Hr|Hgo])|(Hr & Hx & [Hl|Hgo])]; try (left; exact Hgo); right;
    apply movement_none; rewrite ?Hl, ?Hr, Hx; reflexivity.
Qed.

Lemma C7_witness :
  exists g', update seq_count 9 sample_edge 0 = Some (g', 0%nat) /\
             board g' = board sample_edge /\ ship_x g' = ship_x sample_edge /\
             score g' = score sample_edge /\ lives g' = lives sample_edge.
Proof.
  apply (C7_blocked_at_the_edge seq_count 9 sample_edge 0).
  left. cbn. split; [reflexivity|]. split; [reflexivity|]. left. reflexivity.
Defined.

(** C8.  [update] with neither key pending returns and leaves the board,
    the score and the lives unchanged (and [ship_x], and draws no random
    number). *)
Theorem C8_idle_tick
        (rs : RandSeq) (fuel : nat) (g : Game) (k : nat) :
  Controls.left (controls g) = false -> Controls.right (controls g) = false ->
  exists g', update rs fuel g k = Some (g', k) /\
             board g' = board g /\ ship_x g' = ship_x g /\
             score g' = score g /\ lives g' = lives g.
Proof.
  intros Hl Hr. apply update_no_movement. right.
  apply movement_none; rewrite ?Hl, ?Hr; reflexivity.
Qed.

Lemma C8_witness :
  exists g', update seq_count 0 sample_idle 0 = Some (g', 0%nat) /\
             board g' = board sample_idle /\ ship_x g' = ship_x sample_idle /\
             score g' = score sample_idle /\ lives g' = lives sample_idle.
Proof. apply (C8_idle_tick seq_count 0 sample_idle 0); reflexivity. Defined.

(** ** The ship's row in reachable states *)

Lemma count_in_ext (l : list Z) (b b' : Board) (y w : Z) :
  (forall x, In x l -> b x y = b' x y) -> count_in l b y w = count_in l b' y w.
Proof.
  intros H. unfold count_in, board_get. f_equal. apply filter_ext_in.
  intros x Hx. now rewrite H.
Qed.

Lemma count_in_none (l : list Z) (b : Board) (y w : Z) :
  (forall x, In x l -> b x y <> w) -> count_in l b y w = 0%nat.
Proof.
  induction l as [|a l IH]; intros H; [reflexivity|].
  unfold count_in, board_get in *. cbn [filter].
  replace (b a y =? w) with false.
  - apply IH. intros x Hx. apply H. now right.
  - symmetry. apply Z.eqb_neq. apply H. now left.
Qed.

Lemma ship_row_counts (g : Game) :
  ship_on_board g -> ship_row_ok g ->
  count_row (board g) 0 SHIP = 1%nat /\
  count_row (board g) 0 STAR = 0%nat /\ count_row (board g) 0 BLOCK = 0%nat.
Proof.
  intros [Hx _] Hrow.
  assert (Hext : forall w, count_row (board g) 0 w
                           = count_row (board_set empty_board (ship_x g) 0 SHIP) 0 w).
  { intros w. apply count_in_ext. intros x Hin. apply columns_range in Hin.
    specialize (Hrow x Hin). unfold board_get in Hrow. rewrite Hrow.
    destruct (board_set_cases empty_board (ship_x g) 0 SHIP x 0) as [(-> & _ & ->)|(Hne & ->)].
    - now rewrite Z.eqb_refl.
    - replace (x =? ship_x g) with false by lia. reflexivity. }
  assert (Hnone : forall w, w <> -1 -> count_row empty_board 0 w = 0%nat).
  { intros w Hw. apply count_in_none. intros x _. unfold empty_board. congruence. }
  rewrite !Hext.
  pose proof (count_row_write empty_board (ship_x g) 0 SHIP SHIP Hx) as W1.
  pose proof (count_row_write empty_board (ship_x g) 0 SHIP STAR Hx) as W2.
  pose proof (count_row_write empty_board (ship_x g) 0 SHIP BLOCK Hx) as W3.
  rewrite Hnone in W1, W2, W3 by (unfold SHIP, STAR, BLOCK; lia).
  change (indicator (empty_board (ship_x g) 0 =? SHIP)) with 0%nat in W1.
  change (indicator (empty_board (ship_x g) 0 =? STAR)) with 0%nat in W2.
  change (indicator (empty_board (ship_x g) 0 =? BLOCK)) with 0%nat in W3.
  change (indicator (SHIP =? SHIP)) with 1%nat in W1.
  change (indicator (SHIP =? STAR)) with 0%nat in W2.
  change (indicator (SHIP =? BLOCK)) with 0%nat in W3.
  lia.
Qed.

(** C6.  In every state reached from the constructor by [handle_event] and
    [update] calls, [ship_x] is a column of the board, a cell of row 0 holds
    [SHIP] exactly when its column is [ship_x], and so exactly one cell of
    row 0 holds [SHIP]. *)
Theorem C6_one_ship_in_row_0
        (rs : RandSeq) (g0 : Game) (g : Game) (k : nat) :
  reachable rs g0 (g, k) ->
  0 <= ship_x g < board_size_x /\
  (forall x, 0 <= x < board_size_x -> (board_get (board g) x 0 = SHIP <-> x = ship_x g)) /\
  count_row (board g) 0 SHIP = 1%nat.
Proof.
  intros Hr. apply reachable_ship_row in Hr. cbn [fst] in Hr. destruct Hr as [Hon Hrow].
  split; [apply Hon|]. split; [|now apply ship_row_counts].
  intros x Hx. rewrite (Hrow x Hx). unfold SHIP, EMPTY.
  destruct (x =? ship_x g) eqn:E; split; intros; lia.
Qed.

Lemma C6_witness :
  exists g k,
    Game_ctor seq_count 9 sample_idle 0 = Some (g, k) /\
    ship_x g = 4 /\ board_get (board g) 4 0 = SHIP /\ count_row (board g) 0 SHIP = 1%nat.
Proof.
  eexists. eexists. split; [reflexivity|]. split; [reflexivity|].
  destruct (C6_one_ship_in_row_0 seq_count sample_idle _ _
              (reach_ctor seq_count sample_idle 9 _ eq_refl)) as (_ & H1 & H2).
  split; [|exact H2]. apply H1; [unfold board_size_x; lia | reflexivity].
Defined.

(** C10.  In every reachable state each cell of row 0 other than the
    ship's is [EMPTY]: row 0 holds no [BLOCK] and no [STAR]. *)
Theorem C10_no_obstacle_in_row_0
        (rs : RandSeq) (g0 : Game) (g : Game) (k : nat) :
  reachable rs g0 (g, k) ->
  (forall x, 0 <= x < board_size_x -> x <> ship_x g -> board_get (board g) x 0 = EMPTY) /\
  count_row (board g) 0 BLOCK = 0%nat /\ count_row (board g) 0 STAR = 0%nat.
Proof.
  intros Hr. apply reachable_ship_row in Hr. cbn [fst] in Hr. destruct Hr as [Hon Hrow].
  destruct (ship_row_counts g Hon Hrow) as (_ & H1 & H2).
  split; [|split; assumption].
  intros x Hx Hne. rewrite (Hrow x Hx). replace (x =? ship_x g) with false by lia.
  reflexivity.
Qed.

Lemma C10_witness :
  exists g k g' k',
    Game_ctor seq_count 9 sample_idle 0 = Some (g, k) /\
    update seq_count 9 (snd (handle_event (mkEvent SDL_KEYDOWN false SDL_SCANCODE_LEFT) g)) k
    = Some (g', k') /\
    ship_x g' = 3 /\ board_get (board g') 4 0 = EMPTY /\
    count_row (board g') 0 BLOCK = 0%nat.
Proof.
  eexists. eexists. eexists. eexists.
  split; [reflexivity|]. split; [reflexivity|]. split; [reflexivity|].
  destruct (C10_no_obstacle_in_row_0 seq_count sample_idle _ _
              (reach_update seq_count sample_idle 9 _ _ _
                 (reach_event seq_count sample_idle
                    (mkEvent SDL_KEYDOWN false SDL_SCANCODE_LEFT) _ _
                    (reach_ctor seq_count sample_idle 9 _ eq_refl))
                 eq_refl)) as (H1 & H2 & _).
  split; [|exact H2]. apply H1; [unfold board_size_x; lia|].
  vm_compute. intros H. discriminate H.
Defined.

(** ** Termination of the rejection loops *)

(** Lines 232-248 leave every row from 2 to 8 populated. *)
Lemma Game_ctor_rows (rs : RandSeq) (fuel : nat) (g0 : Game) (k : nat) (g : Game) (k' : nat) :
  Game_ctor rs fuel g0 k = Some (g, k') ->
  forall y, 2 <= y <= 8 -> row_populated (board g) y.
Proof.
  unfold Game_ctor, for_range_opt. cbn [board ship_x ship_y set_board set_ship_x set_ship_y].
  set (b1 := board_set (clear_board (board g0)) 4 0 0).
  intros H.
  destruct (for_loop_opt (Z.to_nat (board_size_y - 2)) 2 (fill_row rs fuel) (b1, k))
    as [[b2 k2]|] eqn:Hl; [|discriminate].
  injection H as <- <-. cbn [board].
  pose (P := fun (i : Z) (s : Board * nat) =>
               (forall x y, 0 <= x < 9 -> i <= y < 9 -> fst s x y = EMPTY) /\
               (forall y, 2 <= y < i -> row_populated (fst s) y)).
  assert (HP : P (2 + Z.of_nat (Z.to_nat (board_size_y - 2))) (b2, k2)).
  { apply (for_loop_opt_inv P (fill_row rs fuel) _ 2 (b1, k) (b2, k2)); [| |exact Hl].
    - split; [|intros y Hy; lia].
      intros x y Hx Hy. cbn [fst]. unfold b1. rewrite board_set_other by (right; lia).
      apply clear_board_spec; unfold board_size_x, board_size_y; lia.
    - intros i [b ki] [b' ki'] Hi [He Hp] Hf. cbn [fst] in *.
      unfold fill_row in Hf. destruct (draws_small rs ki) as [D1 D2].
      apply populate_spec in Hf; [|lia|lia]. destruct Hf as (F & _ & CB & CS & CE).
      change (Z.of_nat (Z.to_nat (board_size_y - 2))) with 7 in Hi.
      split.
      + intros x y Hx Hy. rewrite F by lia. apply He; lia.
      + intros y Hy. destruct (Z.eq_dec y i) as [->|Hne].
        * destruct (count_row_all_empty b i) as (E1 & E2 & E3).
          { intros x Hx. apply He; unfold board_size_x in Hx; lia. }
          unfold row_populated. cbn [fst]. lia.
        * assert (Hsame : forall w, count_row b' y w = count_row b y w).
          { intros w. apply count_in_ext. intros x _. apply F. exact Hne. }
          assert (Hy' : 2 <= y < i) by lia. specialize (Hp y Hy').
          unfold row_populated in *. cbn [fst]. rewrite !Hsame. exact Hp. }
  destruct HP as [_ HP]. intros y Hy. apply HP.
  change (Z.of_nat (Z.to_nat (board_size_y - 2))) with 7. lia.
Qed.

(** On [seq_stuck] the draws for a row ask for two blocks and no star; the
    first block lands in column 0 and every later draw is column 0 again. *)
Lemma populate_stuck (fuel : nat) (y : Z) (b : Board) :
  b 0 y = -1 -> populate seq_stuck fuel y 2 0 b 2 = None.
Proof.
  intros Hb. unfold populate. change (Z.to_nat 2) with 2%nat.
  destruct fuel as [|fuel]; [reflexivity|].
  assert (H1 : draw_empty seq_stuck (S fuel) b y 2 = Some (0, 3%nat)).
  { cbn [draw_empty]. change (rand_rem seq_stuck 2 9) with 0.
    unfold board_get. rewrite Hb. reflexivity. }
  cbn [place]. rewrite H1.
  rewrite draw_empty_miss; [reflexivity|].
  intros n. change (rand_rem seq_stuck (3 + n) 9) with 0.
  rewrite board_set_same. discriminate.
Qed.

(** C9, as stated, fails: on the sequence 1, 0, 0, 0, ... the loop that
    looks for the second block's column never returns, in [update] as in the
    constructor, although 8 of the row's 9 cells are [EMPTY]. *)
Lemma C9_counterexample :
  count_row (board_set empty_board 0 8 BLOCK) 8 EMPTY = 8%nat /\
  ~ (exists fuel r, draw_empty seq_stuck fuel (board_set empty_board 0 8 BLOCK) 8 3 = Some r) /\
  ~ (exists fuel st, update seq_stuck fuel sample_left 0 = Some st) /\
  ~ (exists fuel st, Game_ctor seq_stuck fuel sample_idle 0 = Some st).
Proof.
  split; [reflexivity|]. split; [|split].
  - intros (fuel & r & H). rewrite draw_empty_miss in H; [discriminate|].
    intros n. change (rand_rem seq_stuck (3 + n) 9) with 0.
    rewrite board_set_same. discriminate.
  - intros (fuel & st & H). unfold update in H. cbn [game_over sample_left Z.eqb] in H.
    unfold movement in H.
    cbn [controls sample_left Controls.left ship_x Z.eqb negb andb] in H.
    unfold move_branch, respawn in H.
    change (rand_rem seq_stuck 0 3 + 1) with 2 in H.
    change (rand_rem seq_stuck 1 2) with 0 in H.
    rewrite populate_stuck in H; [discriminate|].
    rewrite clear_far_row_spec. reflexivity.
  - intros (fuel & st & H). unfold Game_ctor, for_range_opt in H.
    change (Z.to_nat (board_size_y - 2)) with 7%nat in H.
    cbn [for_loop_opt fill_row] in H.
    change (rand_rem seq_stuck 0 3 + 1) with 2 in H.
    change (rand_rem seq_stuck 1 2) with 0 in H.
    rewrite populate_stuck in H; [discriminate|].
    cbn [board set_board set_ship_x set_ship_y].
    rewrite board_set_other by (right; lia).
    apply clear_board_spec; unfold board_size_x, board_size_y; lia.
Qed.

Lemma seq_count_fair : fair seq_count.
Proof.
  intros k c Hc. exists (Z.to_nat ((c - Z.of_nat k) mod 9)).
  unfold rand_rem, seq_count.
  pose proof (Z.mod_pos_bound (c - Z.of_nat k) 9 ltac:(lia)) as Hm.
  rewrite Z.rem_mod_nonneg by lia.
  rewrite Nat2Z.inj_add, Z2Nat.id by lia.
  rewrite Z.add_mod_idemp_r by lia.
  replace (Z.of_nat k + (c - Z.of_nat k)) with c by lia.
  apply Z.mod_small. lia.
Qed.

(** C9, amended.  On every sequence of draws in which each column keeps
    coming up: a rejection loop started on a row with at most 4 of its 9
    cells occupied returns, with the column of an [EMPTY] cell; the loops of
    the constructor and of the respawn all return, that is the constructor
    and [update] return for every object and every amount of fuel above
    some bound; and the rows they populate end with at most 4 of their 9
    cells occupied (on any sequence), so no loop ever ran on a fuller row. *)
Theorem C9_rejection_loops_return (rs : RandSeq) :
  fair rs ->
  (forall b y k, (5 <= count_row b y EMPTY)%nat ->
                 exists fuel num k',
                   draw_empty rs fuel b y k = Some (num, k') /\
                   0 <= num < board_size_x /\ board_get b num y = EMPTY) /\
  (forall g0 k, exists fuel st,
       forall fuel', (fuel <= fuel')%nat -> Game_ctor rs fuel' g0 k = Some st) /\
  (forall g k, exists fuel st,
       forall fuel', (fuel <= fuel')%nat -> update rs fuel' g k = Some st) /\
  (forall fuel g0 k g k' y,
      Game_ctor rs fuel g0 k = Some (g, k') -> 2 <= y <= 8 ->
      (5 <= count_row (board g) y EMPTY)%nat) /\
  (forall fuel b k b' k',
      respawn rs fuel b k = Some (b', k') -> (5 <= count_row b' 8 EMPTY)%nat).
Proof.
  intros Hf. split; [|split; [|split; [|split]]].
  - intros b y k Hc.
    destruct (draw_empty_terminates rs Hf b y k) as (fuel & num & k' & H); [lia|].
    exists fuel, num, k'. split; [exact H|].
    apply draw_empty_spec in H. unfold board_get, EMPTY. tauto.
  - intros g0 k. destruct (Game_ctor_terminates rs Hf g0 k) as (fuel & st & H).
    exists fuel, st. intros fuel' Hle. now apply Game_ctor_mono with (fuel := fuel).
  - intros g k. destruct (update_terminates rs Hf g k) as (fuel & st & H).
    exists fuel, st. intros fuel' Hle. now apply update_mono with (fuel := fuel).
  - intros fuel g0 k g k' y H Hy.
    destruct (Game_ctor_rows rs fuel g0 k g k' H y Hy) as (H1 & H2 & H3). lia.
  - intros fuel b k b' k' H. apply respawn_spec in H.
    destruct (draws_small rs k) as [D1 D2]. lia.
Qed.

Lemma C9_witness :
  (exists fuel st,
      forall fuel', (fuel <= fuel')%nat -> Game_ctor seq_count fuel' sample_idle 0 = Some st) /\
  (exists fuel st,
      forall fuel', (fuel <= fuel')%nat -> update seq_count fuel' sample_left 0 = Some st).
Proof.
  destruct (C9_rejection_loops_return seq_count seq_count_fair) as (_ & H1 & H2 & _).
  split; [apply H1 | apply H2].
Defined.

(** ** Further properties of the constructor, of a tick and of a run *)

(** The three counts of a row never exceed the number of its cells, and
    reach it only if every cell holds one of the three values. *)
Lemma count_in_three (l : list Z) (b : Board) (y : Z) :
  (count_in l b y EMPTY + count_in l b y BLOCK + count_in l b y STAR <= length l)%nat /\
  ((count_in l b y EMPTY + count_in l b y BLOCK + count_in l b y STAR = length l)%nat ->
   forall x, In x l -> b x y = EMPTY \/ b x y = STAR \/ b x y = BLOCK).
Proof.
  induction l as [|a l [IH1 IH2]]; [split; [reflexivity | intros _ x []]|].
  assert (Hcons : forall w, count_in (a :: l) b y w
                            = (indicator (Z.eqb (b a y) w) + count_in l b y w)%nat).
  { intros w. unfold count_in, board_get. cbn [filter].
    destruct (b a y =? w); reflexivity. }
  rewrite !Hcons. cbn [length]. unfold EMPTY, STAR, BLOCK in *.
  destruct (b a y =? -1) eqn:E1; destruct (b a y =? 2) eqn:E2;
    destruct (b a y =? 1) eqn:E3; cbn [indicator]; try lia.
  all: split; [lia|]; intros Hs x [<-|Hx]; try lia; apply IH2; [lia | exact Hx].
Qed.

Lemma row_cells (b : Board) (y : Z) :
  (count_row b y EMPTY + count_row b y BLOCK + count_row b y STAR = 9)%nat ->
  forall x, 0 <= x < board_size_x -> b x y = EMPTY \/ b x y = STAR \/ b x y = BLOCK.
Proof.
  intros H x Hx. destruct (count_in_three columns b y) as [_ H2].
  apply H2; [exact H | now apply columns_range].
Qed.

Lemma row_populated_sparse (b : Board) (y : Z) : row_populated b y -> row_sparse b y.
Proof. unfold row_populated, row_sparse. lia. Qed.

Lemma Game_ctor_members (rs : RandSeq) (fuel : nat) (g0 : Game) (k : nat)
      (g : Game) (k' : nat) :
  Game_ctor rs fuel g0 k = Some (g, k') ->
  ship_x g = 4 /\ ship_y g = 0 /\ score g = score g0 /\ lives g = lives g0 /\
  game_over g = game_over g0 /\ controls g = controls g0 /\
  forall x y, y < 2 -> board g x y = board_set (clear_board (board g0)) 4 0 0 x y.
Proof.
  unfold Game_ctor, for_range_opt. cbn [board ship_x ship_y set_board set_ship_x set_ship_y].
  set (b1 := board_set (clear_board (board g0)) 4 0 0).
  intros H.
  destruct (for_loop_opt (Z.to_nat (board_size_y - 2)) 2 (fill_row rs fuel) (b1, k))
    as [[b2 k2]|] eqn:Hl; [|discriminate].
  injection H as <- <-. cbn. repeat split.
  pose (P := fun (i : Z) (s : Board * nat) => forall x y, y < 2 -> fst s x y = b1 x y).
  assert (HP : P (2 + Z.of_nat (Z.to_nat (board_size_y - 2))) (b2, k2)).
  { apply (for_loop_opt_inv P (fill_row rs fuel) _ 2 (b1, k) (b2, k2)); [| |exact Hl].
    - intros x y _. reflexivity.
    - intros i [b ki] [b' ki'] Hi Hb Hf x y Hy. cbn [fst] in *.
      unfold fill_row in Hf. destruct (draws_small rs ki) as [D1 D2].
      apply populate_spec in Hf; [|lia|lia]. destruct Hf as (F & _).
      rewrite F by lia. now apply Hb. }
  exact HP.
Qed.

(** X1.  Whatever the object held before, the constructor leaves the ship
    in column 4 of row 0, the rest of row 0 and all of row 1 [EMPTY], every
    row from 2 to 8 with 1 to 3 blocks, at most one star and [EMPTY] cells
    otherwise, and the score, the lives, [game_over] and the pending flags
    as they were. *)
Theorem Game_ctor_establishes
        (rs : RandSeq) (fuel : nat) (g0 : Game) (k : nat) (g : Game) (k' : nat) :
  Game_ctor rs fuel g0 k = Some (g, k') ->
  ship_x g = 4 /\ ship_y g = 0 /\
  (forall x, 0 <= x < board_size_x ->
             board_get (board g) x 0 = if x =? 4 then SHIP else EMPTY) /\
  (forall x, 0 <= x < board_size_x -> board_get (board g) x 1 = EMPTY) /\
  (forall y, 2 <= y <= 8 -> row_populated (board g) y) /\
  score g = score g0 /\ lives g = lives g0 /\ game_over g = game_over g0 /\
  controls g = controls g0.
Proof.
  intros H. destruct (Game_ctor_members _ _ _ _ _ _ H) as (Hx & Hy & Hs & Hl & Hg & Hc & Hb).
  destruct (Game_ctor_ship_row _ _ _ _ _ _ H) as [_ Hrow].
  split; [exact Hx|]. split; [exact Hy|]. split; [|split; [|split]].
  - intros x Hxr. specialize (Hrow x Hxr). now rewrite Hx in Hrow.
  - intros x Hxr. unfold board_get. rewrite Hb by lia.
    rewrite board_set_other by (right; lia).
    apply clear_board_spec; [exact Hxr | unfold board_size_y; lia].
  - exact (Game_ctor_rows _ _ _ _ _ _ H).
  - tauto.
Qed.

Lemma Game_ctor_establishes_witness :
  exists g k',
    Game_ctor seq_count 9 sample_left 0 = Some (g, k') /\
    ship_x g = 4 /\ board_get (board g) 4 0 = SHIP /\ board_get (board g) 3 1 = EMPTY /\
    row_populated (board g) 2 /\ score g = 48.
Proof.
  eexists. eexists. split; [reflexivity|].
  destruct (Game_ctor_establishes seq_count 9 sample_left 0 _ _ eq_refl)
    as (H1 & _ & H3 & H4 & H5 & H6 & _).
  split; [exact H1|].
  split; [exact (H3 4 ltac:(unfold board_size_x; lia))|].
  split; [exact (H4 3 ltac:(unfold board_size_x; lia))|].
  split; [exact (H5 2 ltac:(lia)) | exact H6].
Defined.

(** What a tick does to the counters when the game is not over: nothing,
    or one point gained, or one life lost. *)
Lemma update_effect (rs : RandSeq) (fuel : nat) (g : Game) (k : nat) (g' : Game) (k' : nat) :
  game_over g <> 1 ->
  update rs fuel g k = Some (g', k') ->
  ship_y g' = ship_y g /\ controls g' = Controls.mk false false /\
  (ship_x g' = ship_x g \/ ship_x g' = ship_x g - 1 \/ ship_x g' = ship_x g + 1) /\
  ((score g' = score g /\ lives g' = lives g /\
    game_over g' = (if score g =? 49 then 1 else game_over g)) \/
   (score g' = score g + 1 /\ lives g' = lives g /\
    game_over g' = (if score g + 1 =? 49 then 1 else game_over g)) \/
   (score g' = score g /\ lives g' = lives g - 1 /\
    game_over g' = (if score g =? 49 then 1
                    else if lives g - 1 =? 0 then 1 else game_over g))).
Proof.
  intros Hgo Hu. unfold update in Hu. replace (game_over g =? 1) with false in Hu by lia.
  destruct (movement rs fuel g k) as [[gm km]|] eqn:Hm; [|discriminate].
  injection Hu as <- <-.
  destruct (end_of_tick_spec gm) as (_ & Ex & Ey & Es & El & Eg & Ec).
  rewrite Ex, Ey, Es, El, Eg, Ec.
  assert (Hbranch : forall x', (x' = ship_x g - 1 \/ x' = ship_x g + 1) ->
                               move_branch rs fuel x' g k = Some (gm, km) ->
            ship_y gm = ship_y g /\ (ship_x gm = ship_x g - 1 \/ ship_x gm = ship_x g + 1) /\
            ((score gm = score g /\ lives gm = lives g /\ game_over gm = game_over g) \/
             (score gm = score g + 1 /\ lives gm = lives g /\ game_over gm = game_over g) \/
             (score gm = score g /\ lives gm = lives g - 1 /\
              game_over gm = if lives g - 1 =? 0 then 1 else game_over g))).
  { intros x' Hx' Hb.
    destruct (move_branch_spec _ _ _ _ _ _ _ Hb) as (Ms & Ml & Mg & Mx & My & _).
    rewrite Ms, Ml, Mg, Mx, My. split; [reflexivity|]. split; [lia|].
    destruct (collide_spec (move_ship g x')) as (CS & CB & CE). cbn zeta in *.
    change (score (move_ship g x')) with (score g) in *.
    change (lives (move_ship g x')) with (lives g) in *.
    change (game_over (move_ship g x')) with (game_over g) in *.
    set (c := board_get (board (move_ship g x')) (ship_x (move_ship g x'))
                        (ship_y (move_ship g x') + 1)) in *.
    destruct (Z.eq_dec c STAR) as [E1|N1]; [right; left; tauto|].
    destruct (Z.eq_dec c BLOCK) as [E2|N2]; [right; right; tauto|].
    left. tauto. }
  unfold movement in Hm.
  destruct (Controls.left (controls g) && negb (ship_x g =? 0)).
  - destruct (Hbranch _ (or_introl eq_refl) Hm) as (A & B & C).
    split; [exact A|]. split; [reflexivity|]. split; [tauto|].
    destruct C as [(C1 & C2 & C3)|[(C1 & C2 & C3)|(C1 & C2 & C3)]]; rewrite C1, C2, C3; tauto.
  - destruct (Controls.right (controls g) && negb (ship_x g =? board_size_x - 1)).
    + destruct (Hbranch _ (or_intror eq_refl) Hm) as (A & B & C).
      split; [exact A|]. split; [reflexivity|]. split; [tauto|].
      destruct C as [(C1 & C2 & C3)|[(C1 & C2 & C3)|(C1 & C2 & C3)]]; rewrite C1, C2, C3; tauto.
    + injection Hm as <- <-. split; [reflexivity|]. split; [reflexivity|]. split; [tauto|].
      left. tauto.
Qed.

(** X2.  A tick never takes a point away and never gives a life back: the
    score moves by 0 or +1, the lives by 0 or -1, never both in one tick;
    the ship stays on its row and moves by at most one column; [game_over]
    is left alone or set to 1. *)
Theorem update_changes_little
        (rs : RandSeq) (fuel : nat) (g : Game) (k : nat) (g' : Game) (k' : nat) :
  update rs fuel g k = Some (g', k') ->
  score g <= score g' <= score g + 1 /\
  lives g - 1 <= lives g' <= lives g /\
  (score g' - score g) + (lives g - lives g') <= 1 /\
  ship_y g' = ship_y g /\ -1 <= ship_x g' - ship_x g <= 1 /\
  (game_over g' = game_over g \/ game_over g' = 1).
Proof.
  intros Hu. destruct (Z.eq_dec (game_over g) 1) as [Hgo|Hgo].
  - unfold update in Hu. rewrite Hgo in Hu. injection Hu as <- <-.
    repeat split; lia.
  - destruct (update_effect _ _ _ _ _ _ Hgo Hu) as (Hy & _ & Hx & Hc).
    assert (Hg : game_over g' = game_over g \/ game_over g' = 1).
    { destruct Hc as [(_ & _ & C)|[(_ & _ & C)|(_ & _ & C)]]; rewrite C;
        repeat match goal with |- context [if ?c then _ else _] => destruct c end; tauto. }
    repeat split; try exact Hy; try exact Hg; lia.
Qed.

Lemma update_changes_little_witness :
  exists g' k',
    update seq_count 9 sample_right 0 = Some (g', k') /\
    score sample_right <= score g' <= score sample_right + 1 /\
    lives sample_right - 1 <= lives g' <= lives sample_right.
Proof.
  eexists. eexists. split; [reflexivity|].
  destruct (update_changes_little seq_count 9 sample_right 0 _ _ eq_refl) as (H1 & H2 & _).
  split; [exact H1 | exact H2].
Defined.

Lemma count_row_moved (b b' : Board) (y y' w : Z) :
  (forall x, 0 <= x < board_size_x -> b' x y' = b x y) ->
  count_row b' y' w = count_row b y w.
Proof.
  intros H. unfold count_row, count_in, board_get. f_equal. apply filter_ext_in.
  intros x Hx. apply columns_range in Hx. now rewrite H.
Qed.

Lemma update_keeps_rows (rs : RandSeq) (fuel : nat) (g : Game) (k : nat)
      (g' : Game) (k' : nat) :
  ship_on_board g -> rows_at_rest (board g) ->
  update rs fuel g k = Some (g', k') -> rows_at_rest (board g').
Proof.
  intros [Hx Hy] [Hpop Hsp] Hu. unfold update in Hu.
  destruct (game_over g =? 1); [injection Hu as <- <-; now split|].
  destruct (movement rs fuel g k) as [[gm km]|] eqn:Hm; [|discriminate].
  injection Hu as <- <-. destruct (end_of_tick_spec gm) as (Eb & _). rewrite Eb.
  assert (Hbranch : forall x', move_branch rs fuel x' g k = Some (gm, km) ->
                               rows_at_rest (board gm)).
  { intros x' Hb.
    destruct (move_branch_spec _ _ _ _ _ _ _ Hb) as (_ & _ & _ & _ & _ & _ & Hr).
    apply respawn_spec in Hr. destruct Hr as (F & CB & CS & CT).
    destruct (draws_small rs k) as [D1 D2].
    assert (Hshift : forall y w, 1 <= y <= 7 ->
                                 count_row (board gm) y w = count_row (board g) (y + 1) w).
    { intros y w Hyr. apply count_row_moved. intros x Hxr. rewrite F by lia.
      rewrite move_blocks_down_spec. unfold board_size_x, board_size_y in *.
      replace (1 <=? y) with true by lia. replace (y <? 9 - 1) with true by lia.
      replace (0 <=? x) with true by lia. replace (x <? 9) with true by lia. cbn [andb].
      rewrite move_ship_board. rewrite Hy.
      replace (y + 1 =? 0) with false by lia. now rewrite !andb_false_r. }
    assert (Hrows : forall y, 1 <= y <= 8 -> row_populated (board gm) y).
    { intros y Hyr. destruct (Z.eq_dec y 8) as [->|Hne].
      - unfold row_populated. lia.
      - unfold row_populated. rewrite !Hshift by lia. apply Hpop. lia. }
    split; [intros y Hyr; apply Hrows; lia|].
    apply row_populated_sparse. apply Hrows. lia. }
  unfold movement in Hm.
  destruct (Controls.left (controls g) && negb (ship_x g =? 0)); [now apply Hbranch in Hm|].
  destruct (Controls.right (controls g) && negb (ship_x g =? board_size_x - 1));
    [now apply Hbranch in Hm|].
  injection Hm as <- <-. now split.
Qed.

Lemma reachable_rows (rs : RandSeq) (g0 : Game) (st : Game * nat) :
  reachable rs g0 st -> rows_at_rest (board (fst st)).
Proof.
  induction 1 as [fuel [g k] Hc | evt g k Hr IH | fuel g k [g' k'] Hr IH Hu]; cbn [fst] in *.
  - destruct (Game_ctor_members _ _ _ _ _ _ Hc) as (_ & _ & _ & _ & _ & _ & Hb).
    split; [exact (Game_ctor_rows _ _ _ _ _ _ Hc)|].
    destruct (count_row_all_empty (board g) 1) as (E1 & E2 & E3).
    + intros x Hx. rewrite Hb by lia. rewrite board_set_other by (right; lia).
      apply clear_board_spec; [exact Hx | unfold board_size_y; lia].
    + unfold row_sparse. lia.
  - destruct (handle_event_frame evt g) as (Eb & _). cbn zeta in Eb. now rewrite Eb.
  - apply reachable_ship_row in Hr. cbn [fst] in Hr. destruct Hr as [Hon _].
    exact (update_keeps_rows _ _ _ _ _ _ Hon IH Hu).
Qed.

(** X3.  In every reachable state each row from 2 to 8 holds between 1 and
    3 blocks and at most one star, and row 1 holds at most 3 blocks and at
    most one star; their other cells are [EMPTY]. *)
Theorem obstacle_rows_at_rest (rs : RandSeq) (g0 : Game) (g : Game) (k : nat) :
  reachable rs g0 (g, k) ->
  (forall y, 2 <= y <= 8 -> row_populated (board g) y) /\ row_sparse (board g) 1.
Proof. intros Hr. exact (reachable_rows rs g0 (g, k) Hr). Qed.

Lemma obstacle_rows_at_rest_witness :
  exists g k g' k',
    Game_ctor seq_count 9 sample_idle 0 = Some (g, k) /\
    update seq_count 9 (snd (handle_event press_right g)) k = Some (g', k') /\
    row_populated (board g') 8 /\ row_sparse (board g') 1.
Proof.
  eexists. eexists. eexists. eexists.
  split; [reflexivity|]. split; [reflexivity|].
  destruct (obstacle_rows_at_rest seq_count sample_idle _ _
              (reach_update seq_count sample_idle 9 _ _ _
                 (reach_event seq_count sample_idle press_right _ _
                    (reach_ctor seq_count sample_idle 9 _ eq_refl))
                 eq_refl)) as (H1 & H2).
  split; [apply H1; lia | exact H2].
Defined.

(** X4.  In every reachable state every cell of the 9 x 9 board holds one
    of the four values -1, 0, 1, 2, and the only cell holding [SHIP] (0) is
    the one at column [ship_x] of row 0: an index taken from a cell that is
    not [EMPTY] is 0, 1 or 2. *)
Theorem cells_hold_known_values (rs : RandSeq) (g0 : Game) (g : Game) (k : nat) :
  reachable rs g0 (g, k) ->
  forall x y, 0 <= x < board_size_x -> 0 <= y < board_size_y ->
    (board_get (board g) x y = EMPTY \/ 0 <= board_get (board g) x y <= 2) /\
    (board_get (board g) x y = SHIP <-> x = ship_x g /\ y = 0).
Proof.
  intros Hr x y Hx Hy.
  pose proof (reachable_ship_row rs g0 (g, k) Hr) as [_ Hrow].
  pose proof (reachable_rows rs g0 (g, k) Hr) as [Hpop Hsp]. cbn [fst] in *.
  unfold board_size_y in Hy. unfold board_get, EMPTY, SHIP, STAR, BLOCK in *.
  destruct (Z.eq_dec y 0) as [->|Hy0].
  - specialize (Hrow x Hx). unfold board_get in Hrow. rewrite Hrow.
    unfold SHIP, EMPTY. destruct (x =? ship_x g) eqn:E; split; lia.
  - assert (Hc : board g x y = -1 \/ board g x y = 1 \/ board g x y = 2).
    { destruct (Z.eq_dec y 1) as [->|Hy1].
      - apply (row_cells (board g) 1); [apply Hsp | exact Hx].
      - apply (row_cells (board g) y); [apply (Hpop y); lia | exact Hx]. }
    split; lia.
Qed.

Lemma cells_hold_known_values_witness :
  exists g k,
    Game_ctor seq_count 9 sample_idle 0 = Some (g, k) /\
    (board_get (board g) 2 2 = EMPTY \/ 0 <= board_get (board g) 2 2 <= 2) /\
    board_get (board g) 4 0 = SHIP.
Proof.
  eexists. eexists. split; [reflexivity|].
  destruct (cells_hold_known_values seq_count sample_idle _ _
              (reach_ctor seq_count sample_idle 9 _ eq_refl) 2 2
              ltac:(unfold board_size_x; lia) ltac:(unfold board_size_y; lia)) as (H1 & _).
  split; [exact H1 | reflexivity].
Defined.

Lemma update_keeps_counters (rs : RandSeq) (fuel : nat) (g : Game) (k : nat)
      (g' : Game) (k' : nat) :
  counters_ok g -> update rs fuel g k = Some (g', k') ->
  counters_ok g' /\ score g <= score g' /\ lives g' <= lives g.
Proof.
  intros (Hs & Hl & Hg) Hu. destruct (Z.eq_dec (game_over g) 1) as [Hgo|Hgo].
  - unfold update in Hu. rewrite Hgo in Hu. injection Hu as <- <-.
    split; [repeat split; tauto | lia].
  - destruct (update_effect _ _ _ _ _ _ Hgo Hu) as (_ & _ & _ & Hc).
    assert (Hs' : score g < 49) by lia. assert (Hl' : 0 < lives g) by lia.
    unfold counters_ok.
    destruct Hc as [(C1 & C2 & C3)|[(C1 & C2 & C3)|(C1 & C2 & C3)]]; rewrite C1, C2, C3.
    + replace (score g =? 49) with false by lia. repeat split; try lia; tauto.
    + destruct (score g + 1 =? 49) eqn:E; repeat split; try lia; tauto.
    + replace (score g =? 49) with false by lia.
      destruct (lives g - 1 =? 0) eqn:E; repeat split; try lia; tauto.
Qed.

Lemma reachable_counters (rs : RandSeq) (g0 : Game) (st : Game * nat) :
  counters_ok g0 -> reachable rs g0 st ->
  counters_ok (fst st) /\ score g0 <= score (fst st) /\ lives (fst st) <= lives g0.
Proof.
  intros H0.
  induction 1 as [fuel [g k] Hc | evt g k Hr IH | fuel g k [g' k'] Hr IH Hu]; cbn [fst] in *.
  - destruct (Game_ctor_members _ _ _ _ _ _ Hc) as (_ & _ & Es & El & Eg & _).
    unfold counters_ok in *. rewrite Es, El, Eg. split; [exact H0 | lia].
  - destruct (handle_event_frame evt g) as (_ & _ & _ & Es & El & Eg). cbn zeta in *.
    unfold counters_ok in *. rewrite Es, El, Eg. exact IH.
  - destruct IH as (I1 & I2 & I3).
    destruct (update_keeps_counters _ _ _ _ _ _ I1 Hu) as (J1 & J2 & J3).
    split; [exact J1 | lia].
Qed.

(** X5.  If the object handed to the constructor has its counters in order
    (score at most 49, no negative lives, [game_over] set exactly when the
    score is 49 or no life is left), so has every reachable state: the score
    never passes 49, the lives never go below 0, and the game is over
    exactly when the score is 49 or the lives are 0.  The score never falls
    below its first value and the lives never rise above theirs. *)
Theorem counters_stay_in_order (rs : RandSeq) (g0 : Game) (g : Game) (k : nat) :
  counters_ok g0 -> reachable rs g0 (g, k) ->
  score g0 <= score g <= 49 /\ 0 <= lives g <= lives g0 /\
  (game_over g = 1 <-> score g = 49 \/ lives g = 0).
Proof.
  intros H0 Hr. destruct (reachable_counters rs g0 (g, k) H0 Hr) as ((A & B & C) & D & E).
  cbn [fst] in *. repeat split; try lia; apply C.
Qed.

Lemma counters_stay_in_order_witness :
  exists g k g' k',
    Game_ctor seq_count 9 sample_right 0 = Some (g, k) /\
    update seq_count 9 g k = Some (g', k') /\
    0 <= lives g' <= 1 /\ (game_over g' = 1 <-> score g' = 49 \/ lives g' = 0).
Proof.
  eexists. eexists. eexists. eexists.
  split; [reflexivity|]. split; [reflexivity|].
  assert (H0 : counters_ok sample_right).
  { unfold counters_ok. cbn. split; [lia|]. split; [lia|]. split; intros H; [lia|].
    destruct H; lia. }
  destruct (counters_stay_in_order seq_count sample_right _ _ H0
              (reach_update seq_count sample_right 9 _ _ _
                 (reach_ctor seq_count sample_right 9 _ eq_refl) eq_refl)) as (_ & H2 & H3).
  split; [exact H2 | exact H3].
Defined.

(** ** Events, and runs after the end of the game *)

Lemma step_after_game_over (rs : RandSeq) (st st' : Game * nat) :
  step rs st st' -> game_over (fst st) = 1 ->
  board (fst st') = board (fst st) /\ ship_x (fst st') = ship_x (fst st) /\
  score (fst st') = score (fst st) /\ lives (fst st') = lives (fst st) /\
  game_over (fst st') = 1 /\ snd st' = snd st.
Proof.
  intros Hs Hgo. destruct Hs as [evt g k | fuel g k [g' k'] Hu]; cbn [fst snd] in *.
  - destruct (handle_event_frame evt g) as (Eb & Ex & _ & Es & El & Eg). cbn zeta in *.
    rewrite Eb, Ex, Es, El, Eg. repeat split; assumption.
  - unfold update in Hu. rewrite Hgo in Hu. injection Hu as <- <-.
    repeat split; assumption.
Qed.

(** X6.  Once [game_over] is set nothing moves any more: after any sequence
    of [handle_event] and [update] calls the board, [ship_x], the score and
    the lives are what they were, [game_over] is still set and no random
    number has been drawn. *)
Theorem game_over_is_final (rs : RandSeq) (g : Game) (k : nat) (g' : Game) (k' : nat) :
  steps rs (g, k) (g', k') -> game_over g = 1 ->
  board g' = board g /\ ship_x g' = ship_x g /\ score g' = score g /\
  lives g' = lives g /\ game_over g' = 1 /\ k' = k.
Proof.
  intros Hs.
  remember (g, k) as st eqn:E1. remember (g', k') as st' eqn:E2.
  revert g k g' k' E1 E2.
  induction Hs as [st | st1 [g2 k2] st3 H12 H23 IH]; intros g k g' k' E1 E2 Hgo.
  - subst st. injection E2 as <- <-. repeat split; assumption.
  - subst st1 st3.
    destruct (step_after_game_over rs _ _ H12 Hgo) as (Eb & Ex & Es & El & Eg & Ek).
    cbn [fst snd] in *.
    destruct (IH g2 k2 g' k' eq_refl eq_refl Eg) as (Fb & Fx & Fs & Fl & Fg & Fk).
    rewrite Fb, Fx, Fs, Fl, Fk. repeat split; assumption.
Qed.

Lemma game_over_is_final_witness :
  exists g' k',
    steps seq_count (sample_over, 0%nat) (g', k') /\
    Controls.right (controls g') = true /\
    board g' = board sample_over /\ score g' = score sample_over /\ k' = 0%nat.
Proof.
  exists (snd (handle_event press_right sample_over)), 0%nat.
  assert (Hs : steps seq_count (sample_over, 0%nat)
                     (snd (handle_event press_right sample_over), 0%nat)).
  { eapply steps_next.
    - apply (step_update seq_count 9 sample_over 0 (sample_over, 0%nat)). reflexivity.
    - eapply steps_next; [apply (step_event seq_count press_right sample_over 0)|].
      apply steps_done. }
  split; [exact Hs|]. split; [reflexivity|].
  destruct (game_over_is_final seq_count sample_over 0 _ _ Hs eq_refl)
    as (H1 & _ & H3 & _ & _ & H6).
  split; [exact H1|]. split; [exact H3 | exact H6].
Defined.

Lemma handle_event_no_press (evt : SDL_Event) (g : Game) :
  is_press evt = false ->
  Controls.left (controls g) = false -> Controls.right (controls g) = false ->
  Controls.left (controls (snd (handle_event evt g))) = false /\
  Controls.right (controls (snd (handle_event evt g))) = false.
Proof.
  unfold is_press, handle_event. intros Hp Hl Hr.
  destruct (evt_type evt); destruct (key_repeat evt); destruct (key_scancode evt);
    cbn in *; try discriminate; split; assumption.
Qed.

Lemma handle_events_frame (evts : list SDL_Event) (g : Game) :
  board (handle_events evts g) = board g /\ ship_x (handle_events evts g) = ship_x g /\
  ship_y (handle_events evts g) = ship_y g /\ score (handle_events evts g) = score g /\
  lives (handle_events evts g) = lives g /\ game_over (handle_events evts g) = game_over g.
Proof.
  revert g. induction evts as [|evt evts IH]; intros g; [repeat split|].
  unfold handle_events in *. cbn [fold_left].
  destruct (IH (snd (handle_event evt g))) as (A1 & A2 & A3 & A4 & A5 & A6).
  destruct (handle_event_frame evt g) as (B1 & B2 & B3 & B4 & B5 & B6). cbn zeta in *.
  rewrite A1, A2, A3, A4, A5, A6. repeat split; assumption.
Qed.

Lemma handle_events_no_press (evts : list SDL_Event) (g : Game) :
  forallb (fun evt => negb (is_press evt)) evts = true ->
  Controls.left (controls g) = false -> Controls.right (controls g) = false ->
  Controls.left (controls (handle_events evts g)) = false /\
  Controls.right (controls (handle_events evts g)) = false.
Proof.
  revert g. induction evts as [|evt evts IH]; intros g Hall Hl Hr; [now split|].
  cbn [forallb] in Hall. apply andb_prop in Hall. destruct Hall as [Hp Hall].
  apply negb_true_iff in Hp.
  destruct (handle_event_no_press evt g Hp Hl Hr) as [Hl' Hr'].
  unfold handle_events in *. cbn [fold_left]. now apply IH.
Qed.

(** X7.  A key held down moves the ship once: after a tick of a game that
    is not over, however many events arrive that are not a fresh press of
    the left or right key (automatic repeats, releases, other keys), the
    next tick returns without moving the ship, shifting the rows, changing
    the score or the lives, or drawing a random number. *)
Theorem held_key_moves_once
        (rs : RandSeq) (fuel fuel' : nat) (g : Game) (k : nat) (g1 : Game) (k1 : nat)
        (evts : list SDL_Event) :
  game_over g <> 1 ->
  update rs fuel g k = Some (g1, k1) ->
  forallb (fun evt => negb (is_press evt)) evts = true ->
  exists g2,
    update rs fuel' (handle_events evts g1) k1 = Some (g2, k1) /\
    board g2 = board g1 /\ ship_x g2 = ship_x g1 /\
    score g2 = score g1 /\ lives g2 = lives g1.
Proof.
  intros Hgo Hu Hall.
  destruct (update_effect _ _ _ _ _ _ Hgo Hu) as (_ & Hc & _).
  destruct (handle_events_no_press evts g1 Hall) as [Hl Hr]; [now rewrite Hc..|].
  destruct (handle_events_frame evts g1) as (Fb & Fx & _ & Fs & Fl & _).
  destruct (update_no_movement rs fuel' (handle_events evts g1) k1) as (g2 & Hu2 & E).
  { right. apply movement_none; rewrite ?Hl, ?Hr; reflexivity. }
  exists g2. split; [exact Hu2|].
  destruct E as (E1 & E2 & E3 & E4). rewrite E1, E2, E3, E4. repeat split; assumption.
Qed.

Lemma held_key_moves_once_witness :
  exists g1 k1 g2,
    update seq_count 9 sample_right 0 = Some (g1, k1) /\
    update seq_count 9 (handle_events [repeat_left; repeat_left; release_left] g1) k1
    = Some (g2, k1) /\
    board g2 = board g1 /\ ship_x g2 = ship_x g1.
Proof.
  eexists. eexists.
  assert (Hgo : game_over sample_right <> 1) by (cbn; lia).
  destruct (held_key_moves_once seq_count 9 9 sample_right 0 _ _
              [repeat_left; repeat_left; release_left] Hgo eq_refl eq_refl)
    as (g2 & H1 & H2 & H3 & _).
  exists g2. split; [reflexivity|]. split; [exact H1|]. split; [exact H2 | exact H3].
Defined.

(** X8.  An event that [handle_event] does not consume leaves the object
    as it was; a consumed one leaves everything but [controls] as it was.
    Of two consumed events on the same key the later one decides, and two
    consumed events on different keys can be handled in either order. *)
Theorem handle_event_composes (e1 e2 : SDL_Event) (g : Game) :
  (fst (handle_event e1 g) = false -> snd (handle_event e1 g) = g) /\
  (fst (handle_event e1 g) = true -> fst (handle_event e2 g) = true ->
   (key_scancode e1 = key_scancode e2 ->
    snd (handle_event e2 (snd (handle_event e1 g))) = snd (handle_event e2 g)) /\
   (key_scancode e1 <> key_scancode e2 ->
    snd (handle_event e2 (snd (handle_event e1 g)))
    = snd (handle_event e1 (snd (handle_event e2 g))))).
Proof.
  unfold handle_event. split.
  - destruct (is_keydown (evt_type e1) && key_repeat e1); [reflexivity|].
    destruct (is_keydown (evt_type e1) || is_keyup (evt_type e1)); [|reflexivity].
    destruct (key_scancode e1); cbn; intros; try discriminate; reflexivity.
  - destruct (is_keydown (evt_type e1) && key_repeat e1); [discriminate|].
    destruct (is_keydown (evt_type e2) && key_repeat e2); [discriminate|].
    destruct (is_keydown (evt_type e1) || is_keyup (evt_type e1)); [|discriminate].
    destruct (is_keydown (evt_type e2) || is_keyup (evt_type e2)); [|discriminate].
    destruct (key_scancode e1); destruct (key_scancode e2); cbn; intros H1 H2;
      try discriminate; split; intros H3; try congruence; reflexivity.
Qed.

(** X9.  In a tick of a game that is not over, with the ship on the board:
    the ship stays on the board; a pending left moves it one column left
    from any column but 0, whatever the right flag; in column 0 with both
    keys pending it moves right to column 1; a pending right alone moves it
    one column right from any column but 8. *)
Theorem ship_after_update
        (rs : RandSeq) (fuel : nat) (g : Game) (k : nat) (g' : Game) (k' : nat) :
  game_over g <> 1 -> ship_on_board g ->
  update rs fuel g k = Some (g', k') ->
  ship_on_board g' /\
  (Controls.left (controls g) = true -> 0 < ship_x g -> ship_x g' = ship_x g - 1) /\
  (Controls.left (controls g) = true -> ship_x g = 0 ->
   Controls.right (controls g) = true -> ship_x g' = 1) /\
  (Controls.left (controls g) = false -> Controls.right (controls g) = true ->
   ship_x g < 8 -> ship_x g' = ship_x g + 1).
Proof.
  intros Hgo [Hx Hy] Hu. unfold update in Hu.
  replace (game_over g =? 1) with false in Hu by lia.
  destruct (movement rs fuel g k) as [[gm km]|] eqn:Hm; [|discriminate].
  injection Hu as <- <-.
  destruct (end_of_tick_spec gm) as (_ & Ex & Ey & _).
  unfold ship_on_board, board_size_x in *. rewrite Ex, Ey.
  assert (Hbranch : forall x', move_branch rs fuel x' g k = Some (gm, km) ->
                               ship_x gm = x' /\ ship_y gm = 0).
  { intros x' Hb. destruct (move_branch_spec _ _ _ _ _ _ _ Hb) as (_ & _ & _ & A & B & _).
    split; [exact A | now rewrite B]. }
  unfold movement in Hm.
  destruct (Controls.left (controls g)) eqn:El; destruct (ship_x g =? 0) eqn:E0;
    cbn [andb negb] in Hm.
  - destruct (Controls.right (controls g)) eqn:Er;
      destruct (ship_x g =? board_size_x - 1) eqn:E8; cbn [andb negb] in Hm;
      unfold board_size_x in *;
      try (apply Hbranch in Hm; destruct Hm as [A B]; rewrite A, B);
      try (injection Hm as <- <-);
      repeat split; intros; try discriminate; lia.
  - apply Hbranch in Hm. destruct Hm as [A B]. rewrite A, B.
    repeat split; intros; try discriminate; lia.
  - destruct (Controls.right (controls g)) eqn:Er;
      destruct (ship_x g =? board_size_x - 1) eqn:E8; cbn [andb negb] in Hm;
      unfold board_size_x in *;
      try (apply Hbranch in Hm; destruct Hm as [A B]; rewrite A, B);
      try (injection Hm as <- <-);
      repeat split; intros; try discriminate; lia.
  - destruct (Controls.right (controls g)) eqn:Er;
      destruct (ship_x g =? board_size_x - 1) eqn:E8; cbn [andb negb] in Hm;
      unfold board_size_x in *;
      try (apply Hbranch in Hm; destruct Hm as [A B]; rewrite A, B);
      try (injection Hm as <- <-);
      repeat split; intros; try discriminate; lia.
Qed.

Lemma ship_after_update_witness :
  exists g' k',
    update seq_count 9 sample_both 0 = Some (g', k') /\
    ship_on_board g' /\ ship_x g' = 1.
Proof.
  eexists. eexists. split; [reflexivity|].
  assert (Hgo : game_over sample_both <> 1) by (cbn; lia).
  assert (Hon : ship_on_board sample_both) by (unfold ship_on_board, board_size_x; cbn; lia).
  destruct (ship_after_update seq_count 9 sample_both 0 _ _ Hgo Hon eq_refl)
    as (H1 & _ & H3 & _).
  split; [exact H1 | exact (H3 eq_refl eq_refl eq_refl)].
Defined.

(** ** The calls made by [draw] *)

Lemma upto_succ (n : Z) : 0 <= n -> upto (n + 1) = upto n ++ [n].
Proof.
  intros Hn. unfold upto. replace (Z.to_nat (n + 1)) with (S (Z.to_nat n)) by lia.
  rewrite seq_S, map_app. cbn [map Nat.add]. f_equal. f_equal. lia.
Qed.

Lemma upto_range (n x : Z) : In x (upto n) <-> 0 <= x < n.
Proof.
  unfold upto. rewrite in_map_iff. split.
  - intros (j & <- & Hj). apply in_seq in Hj. lia.
  - intros Hx. exists (Z.to_nat x). split; [lia|]. apply in_seq. lia.
Qed.

Lemma mesh_at_some (ms : MeshIndex.Meshes) (v : Z) (m : MeshIndex.Mesh) :
  MeshIndex.mesh_at ms v = Some m <->
  (v = 0 /\ m = MeshIndex.ship_mesh ms) \/ (v = 1 /\ m = MeshIndex.star_mesh ms) \/
  (v = 2 /\ m = MeshIndex.brick_mesh ms).
Proof.
  unfold MeshIndex.mesh_at, MeshIndex.mesh_array. split.
  - destruct (v <? 0) eqn:E; [discriminate|]. intros H.
    assert (Hv : 0 <= v) by lia.
    destruct (Z.to_nat v) as [|[|[|n]]] eqn:En; cbn in H.
    + left. split; [lia | congruence].
    + right. left. split; [lia | congruence].
    + right. right. split; [lia | congruence].
    + destruct n; discriminate.
  - intros [[-> ->]|[[-> ->]|[-> ->]]]; reflexivity.
Qed.

(** The loop over the cells: it returns exactly when every cell of the
    board holds a value from -1 to 2, with the calls of [cell_calls]. *)
Lemma draw_cells_spec (ms : MeshIndex.Meshes) (b : Board) (out : list DrawCall) :
  ((forall x y, 0 <= x < board_size_x -> 0 <= y < board_size_y -> -1 <= b x y <= 2) ->
   draw_cells ms b out = Some (out ++ cell_calls ms b)) /\
  (forall out', draw_cells ms b out = Some out' ->
                forall x y, 0 <= x < board_size_x -> 0 <= y < board_size_y ->
                            -1 <= b x y <= 2).
Proof.
  unfold draw_cells, for_range_opt, cell_calls, board_size_x, board_size_y.
  change (Z.to_nat (9 - 0)) with 9%nat.
  set (inner := fun (y : Z) (out1 : list DrawCall) =>
                  for_loop_opt 9 0
                    (fun x out2 =>
                       if negb (board_get b x y =? -1) then
                         match MeshIndex.mesh_at ms (board_get b x y) with
                         | None => None
                         | Some m => Some (out2 ++ [draw_cell m (board_get b x y) x y])
                         end
                       else Some out2) out1).
  assert (Hinner_ok : forall y out1,
             (forall x, 0 <= x < 9 -> -1 <= b x y <= 2) ->
             inner y out1 = Some (out1 ++ flat_map (cell_call ms b y) (upto 9))).
  { intros y out1 Hrow. unfold inner.
    destruct (for_loop_opt_total
                (fun x o => o = out1 ++ flat_map (cell_call ms b y) (upto x))
                (fun x out2 =>
                   if negb (board_get b x y =? -1) then
                     match MeshIndex.mesh_at ms (board_get b x y) with
                     | None => None
                     | Some m => Some (out2 ++ [draw_cell m (board_get b x y) x y])
                     end
                   else Some out2) 9 0 out1) as (o & Ho & Hp).
    - cbn. now rewrite app_nil_r.
    - intros x t Hx ->. rewrite upto_succ by lia. rewrite flat_map_app. cbn [flat_map].
      rewrite app_nil_r. unfold cell_call, board_get.
      destruct (b x y =? -1) eqn:E; cbn [negb].
      + exists (out1 ++ flat_map (cell_call ms b y) (upto x)).
        split; [reflexivity|]. now rewrite app_nil_r.
      + specialize (Hrow x ltac:(lia)).
        assert (Hm : exists m, MeshIndex.mesh_at ms (b x y) = Some m).
        { assert (Hc : b x y = 0 \/ b x y = 1 \/ b x y = 2) by lia.
          destruct Hc as [Hc|[Hc|Hc]]; rewrite Hc; eexists; reflexivity. }
        destruct Hm as (m & Hm). rewrite Hm.
        eexists. split; [reflexivity|]. now rewrite app_assoc.
    - rewrite Ho. f_equal. exact Hp. }
  assert (Hinner_some : forall y out1 out2,
             inner y out1 = Some out2 -> forall x, 0 <= x < 9 -> -1 <= b x y <= 2).
  { intros y out1 out2 H.
    refine (for_loop_opt_inv
              (fun x (_ : list DrawCall) => forall x', 0 <= x' < x -> -1 <= b x' y <= 2)
              _ 9 0 out1 out2 _ _ H).
    - intros x' Hx'. lia.
    - intros x t t' Hx Ht Hb x' Hx'. unfold board_get in Hb.
      destruct (Z.eq_dec x' x) as [->|Hne]; [|apply Ht; lia].
      destruct (b x y =? -1) eqn:E; cbn [negb] in Hb; [lia|].
      destruct (MeshIndex.mesh_at ms (b x y)) as [m|] eqn:Hm; [|discriminate].
      apply mesh_at_some in Hm. lia. }
  split.
  - intros Hall.
    destruct (for_loop_opt_total
                (fun y o => o = out ++ flat_map
                                        (fun y' => flat_map (cell_call ms b y') (upto 9))
                                        (upto y))
                inner 9 0 out) as (o & Ho & Hp).
    + cbn. now rewrite app_nil_r.
    + intros y t Hy ->. rewrite Hinner_ok by (intros x Hx; apply Hall; lia).
      eexists. split; [reflexivity|].
      rewrite upto_succ by lia. rewrite flat_map_app. cbn [flat_map].
      rewrite app_nil_r. now rewrite app_assoc.
    + fold inner. rewrite Ho. f_equal. exact Hp.
  - intros out' H. fold inner in H.
    refine (for_loop_opt_inv
              (fun y (_ : list DrawCall) =>
                 forall x y', 0 <= x < 9 -> 0 <= y' < y -> -1 <= b x y' <= 2)
              _ 9 0 out out' _ _ H).
    + intros x y' _ Hy'. lia.
    + intros y t t' Hy Ht Hb x y' Hx Hy'.
      destruct (Z.eq_dec y' y) as [->|Hne]; [|apply Ht; lia].
      exact (Hinner_some y t t' Hb x Hx).
Qed.

Lemma draw_lives_spec (m : MeshIndex.Mesh) (n : Z) (out : list DrawCall) :
  draw_lives m n out = out ++ map (draw_life m) (upto (as_uint32 n)).
Proof.
  unfold draw_lives, for_range. rewrite Z.sub_0_r.
  assert (Hn : 0 <= as_uint32 n) by (unfold as_uint32; apply Z.mod_pos_bound; lia).
  pose proof (for_loop_inv
                (fun i o => 0 <= i -> o = out ++ map (draw_life m) (upto i))
                (fun i out1 => out1 ++ [draw_life m i])
                (Z.to_nat (as_uint32 n)) 0 out) as H.
  rewrite Z.add_0_l, Z2Nat.id in H by exact Hn.
  apply H; [| |exact Hn].
  - intros _. cbn. now rewrite app_nil_r.
  - intros i t Hi Ht _. rewrite Ht by lia. rewrite upto_succ by lia.
    rewrite map_app. cbn [map]. now rewrite app_assoc.
Qed.

Lemma draw_score_spec (m : MeshIndex.Mesh) (n : Z) (out : list DrawCall) :
  draw_score m n out
  = out ++ map (fun k => draw_star m (k mod 3) (k / 3)) (upto (as_uint32 n)).
Proof.
  unfold draw_score, for_range. rewrite Z.sub_0_r.
  assert (Hn : 0 <= as_uint32 n) by (unfold as_uint32; apply Z.mod_pos_bound; lia).
  pose proof (for_loop_inv
                (fun k (st : Z * Z * list DrawCall) =>
                   0 <= k ->
                   snd st = out ++ map (fun k => draw_star m (k mod 3) (k / 3)) (upto k) /\
                   ((k = 0 /\ fst (fst st) = 0 /\ snd (fst st) = 0) \/
                    (0 < k /\ fst (fst st) = (k - 1) mod 3 + 1 /\
                     snd (fst st) = (k - 1) / 3)))
                (fun _ st => star_step m st)
                (Z.to_nat (as_uint32 n)) 0 (0, 0, out)) as H.
  rewrite Z.add_0_l, Z2Nat.id in H by exact Hn.
  apply H; [| |exact Hn].
  - intros _. cbn. rewrite app_nil_r. split; [reflexivity | left; auto].
  - intros k [[i rows] o] Hk Ht _. destruct (Ht ltac:(lia)) as [Ho Hc]. cbn [fst snd] in *.
    assert (Hir : k mod 3 + 1 = k mod 3 + 1) by reflexivity.
    assert (Hnew : (if (Z.rem i 3 =? 0) && negb (i =? 0) then (0, rows + 1) else (i, rows))
                   = (k mod 3, k / 3)).
    { destruct Hc as [(-> & -> & ->)|(Hpos & -> & ->)]; [reflexivity|].
      pose proof (Z.mod_pos_bound (k - 1) 3 ltac:(lia)) as Hb.
      rewrite Z.rem_mod_nonneg by lia.
      replace ((k - 1) mod 3 + 1 =? 0) with false by lia. cbn [negb]. rewrite andb_true_r.
      destruct (((k - 1) mod 3 + 1) mod 3 =? 0) eqn:E;
        [apply Z.eqb_eq in E | apply Z.eqb_neq in E]; f_equal;
        Z.div_mod_to_equations; lia. }
    unfold star_step. rewrite Hnew. cbn [fst snd]. split.
    + rewrite Ho. rewrite upto_succ by lia. rewrite map_app. cbn [map].
      now rewrite app_assoc.
    + right. replace (k + 1 - 1) with k by lia. repeat split; try lia.
Qed.

(** X10.  The loop over the score draws one star per point, three to a
    row: there are as many calls as points, and the call for point number
    [k] (from 0) is made with column counter [k mod 3] after [k / 3] steps
    of [j]. *)
Theorem draw_score_layout (m : MeshIndex.Mesh) (n : Z) :
  Z.of_nat (length (draw_score m n [])) = as_uint32 n /\
  forall k, 0 <= k < as_uint32 n ->
            nth_error (draw_score m n []) (Z.to_nat k)
            = Some (draw_star m (k mod 3) (k / 3)).
Proof.
  rewrite draw_score_spec. cbn [app].
  assert (Hn : 0 <= as_uint32 n) by (unfold as_uint32; apply Z.mod_pos_bound; lia).
  unfold upto. split.
  - rewrite !length_map, length_seq. lia.
  - intros k Hk. rewrite map_map.
    rewrite (nth_error_map (fun j => draw_star m (Z.of_nat j mod 3) (Z.of_nat j / 3))).
    rewrite nth_error_nth' with (d := 0%nat) by (rewrite length_seq; lia).
    rewrite seq_nth by lia. cbn [option_map Nat.add]. now rewrite Z2Nat.id by lia.
Qed.

Lemma cell_calls_in (ms : MeshIndex.Meshes) (b : Board) (c : DrawCall) :
  In c (cell_calls ms b) <->
  exists x y m, c = draw_cell m (b x y) x y /\ 0 <= x < board_size_x /\
                0 <= y < board_size_y /\ b x y <> -1 /\
                MeshIndex.mesh_at ms (b x y) = Some m.
Proof.
  unfold cell_calls. rewrite in_flat_map. split.
  - intros (y & Hy & Hc). apply in_flat_map in Hc. destruct Hc as (x & Hx & Hc).
    apply upto_range in Hy, Hx. unfold cell_call, board_get in Hc.
    destruct (b x y =? -1) eqn:E; cbn [negb] in Hc; [destruct Hc|].
    destruct (MeshIndex.mesh_at ms (b x y)) as [m|] eqn:Hm; [|destruct Hc].
    destruct Hc as [<-|[]]. exists x, y, m. repeat split; try tauto; lia.
  - intros (x & y & m & -> & Hx & Hy & Hne & Hm). exists y.
    split; [now apply upto_range|]. apply in_flat_map. exists x.
    split; [now apply upto_range|]. unfold cell_call, board_get.
    replace (b x y =? -1) with false by lia. cbn [negb]. rewrite Hm. now left.
Qed.

Lemma draw_in_bounds_cells (ms : MeshIndex.Meshes) (g : Game) :
  ((forall x y, 0 <= x < board_size_x -> 0 <= y < board_size_y ->
                -1 <= board_get (board g) x y <= 2) ->
   draw ms g
   = Some (draw_board (MeshIndex.tile_mesh ms) :: cell_calls ms (board g)
           ++ map (draw_life (MeshIndex.ship_mesh ms)) (upto (as_uint32 (lives g)))
           ++ map (fun k => draw_star (MeshIndex.star_mesh ms) (k mod 3) (k / 3))
                  (upto (as_uint32 (score g))))) /\
  (forall calls, draw ms g = Some calls ->
                 forall x y, 0 <= x < board_size_x -> 0 <= y < board_size_y ->
                             -1 <= board_get (board g) x y <= 2).
Proof.
  unfold draw, board_get.
  destruct (draw_cells_spec ms (board g) [draw_board (MeshIndex.tile_mesh ms)]) as [H1 H2].
  split.
  - intros Hall. rewrite (H1 Hall).
    change (MeshIndex.mesh_at ms 0) with (Some (MeshIndex.ship_mesh ms)).
    change (MeshIndex.mesh_at ms 1) with (Some (MeshIndex.star_mesh ms)).
    cbv beta iota.
    rewrite draw_score_spec, draw_lives_spec. cbn [app]. now rewrite <- app_assoc.
  - intros calls H.
    destruct (draw_cells ms (board g) [draw_board (MeshIndex.tile_mesh ms)]) as [out1|] eqn:E;
      [|discriminate].
    exact (H2 out1 eq_refl).
Qed.

(** X11.  [draw] stays inside the three meshes of [mesh_array] exactly when
    every cell of the board holds a value from -1 to 2; a cell holding
    anything else makes it index outside them. *)
Theorem draw_in_bounds (ms : MeshIndex.Meshes) (g : Game) :
  (exists calls, draw ms g = Some calls) <->
  (forall x y, 0 <= x < board_size_x -> 0 <= y < board_size_y ->
               -1 <= board_get (board g) x y <= 2).
Proof.
  destruct (draw_in_bounds_cells ms g) as [H1 H2]. split.
  - intros (calls & H). exact (H2 calls H).
  - intros Hall. eexists. exact (H1 Hall).
Qed.

(** X12.  In every reachable state [draw] stays inside [mesh_array].  It
    draws the board, then the cells that are not [EMPTY], then one ship per
    life, then one star per point; the cells drawn are: with the ship mesh
    the cell at column [ship_x] of row 0 and no other, with the star mesh
    each cell holding 1, with the brick mesh each cell holding 2. *)
Theorem draw_in_reachable_state
        (rs : RandSeq) (g0 : Game) (g : Game) (k : nat) (ms : MeshIndex.Meshes) :
  reachable rs g0 (g, k) ->
  exists calls,
    draw ms g = Some calls /\
    calls = draw_board (MeshIndex.tile_mesh ms) :: cell_calls ms (board g)
            ++ map (draw_life (MeshIndex.ship_mesh ms)) (upto (as_uint32 (lives g)))
            ++ map (fun k => draw_star (MeshIndex.star_mesh ms) (k mod 3) (k / 3))
                   (upto (as_uint32 (score g))) /\
    forall m kind x y,
      In (draw_cell m kind x y) calls <->
      0 <= x < board_size_x /\ 0 <= y < board_size_y /\ kind = board_get (board g) x y /\
      ((kind = SHIP /\ m = MeshIndex.ship_mesh ms /\ x = ship_x g /\ y = 0) \/
       (kind = STAR /\ m = MeshIndex.star_mesh ms) \/
       (kind = BLOCK /\ m = MeshIndex.brick_mesh ms)).
Proof.
  intros Hr.
  pose proof (reachable_ship_row rs g0 (g, k) Hr) as [_ Hrow].
  pose proof (reachable_rows rs g0 (g, k) Hr) as [Hpop Hsp]. cbn [fst] in *.
  assert (Hcell : forall x y, 0 <= x < board_size_x -> 0 <= y < board_size_y ->
                              (y = 0 /\ board g x y = if x =? ship_x g then 0 else -1) \/
                              (1 <= y /\ (board g x y = -1 \/ board g x y = 1 \/
                                          board g x y = 2))).
  { intros x y Hx Hy. unfold board_size_y in Hy.
    destruct (Z.eq_dec y 0) as [->|Hy0]; [left; split; [reflexivity | apply (Hrow x Hx)]|].
    right. split; [lia|].
    destruct (Z.eq_dec y 1) as [->|Hy1].
    - apply (row_cells (board g) 1); [apply Hsp | exact Hx].
    - apply (row_cells (board g) y); [apply (Hpop y); lia | exact Hx]. }
  destruct (draw_in_bounds_cells ms g) as [Hd _].
  eexists. split; [|split; [reflexivity|]].
  - apply Hd. intros x y Hx Hy. unfold board_get.
    destruct (Hcell x y Hx Hy) as [[_ E]|[_ E]]; [|lia].
    rewrite E. destruct (x =? ship_x g); lia.
  - intros m kind x y. cbn [In]. rewrite !in_app_iff, !in_map_iff, cell_calls_in.
    unfold board_get, SHIP, STAR, BLOCK. split.
    + intros [H|[(x1 & y1 & m1 & Hc & Hx & Hy & Hne & Hm)|[(i & H & _)|(i & H & _)]]];
        try discriminate.
      injection Hc as -> -> -> ->. split; [exact Hx|]. split; [exact Hy|].
      split; [reflexivity|]. apply mesh_at_some in Hm.
      destruct (Hcell x1 y1 Hx Hy) as [[-> E]|[Hy1 E]].
      * rewrite E in *. destruct (x1 =? ship_x g) eqn:Ex; [|lia].
        left. destruct Hm as [[_ ->]|[[H _]|[H _]]]; try lia. repeat split. lia.
      * destruct Hm as [[H _]|[[H ->]|[H ->]]]; [lia | right; left | right; right];
          split; auto.
    + intros (Hx & Hy & -> & Hk). right. left. exists x, y, m.
      split; [reflexivity|]. split; [exact Hx|]. split; [exact Hy|].
      destruct Hk as [(E & -> & _)|[(E & ->)|(E & ->)]]; rewrite E;
        split; try lia; reflexivity.
Qed.

Lemma draw_in_reachable_state_witness :
  exists g k calls,
    Game_ctor seq_count 9 sample_fresh 0 = Some (g, k) /\
    draw MeshIndex.sample_meshes g = Some calls /\
    In (draw_cell (MeshIndex.mkMesh 6 24) 0 4 0) calls.
Proof.
  eexists. eexists.
  destruct (draw_in_reachable_state seq_count sample_fresh _ _ MeshIndex.sample_meshes
              (reach_ctor seq_count sample_fresh 9 _ eq_refl)) as (calls & H1 & _ & H2).
  exists calls. split; [reflexivity|]. split; [exact H1|].
  apply H2. unfold board_size_x, board_size_y.
  split; [lia|]. split; [lia|]. split; [reflexivity|].
  left. repeat split.
Defined.

(** ** The index of meshes *)

Lemma find_head (n : String.string) (m : MeshIndex.Mesh) (idx : MeshIndex.Index)
      (n' : String.string) :
  MeshIndex.find ((n, m) :: idx) n'
  = if String.eqb n n' then Some m else MeshIndex.find idx n'.
Proof. reflexivity. Qed.

Lemma NoDup_map_same {A B : Type} (f : A -> B) (l : list A) (x y : A) :
  NoDup (map f l) -> In x l -> In y l -> f x = f y -> x = y.
Proof.
  induction l as [|a l IH]; intros Hnd Hx Hy Hf; [destruct Hx|].
  cbn [map] in Hnd. apply NoDup_cons_iff in Hnd. destruct Hnd as [Hna Hnd].
  destruct Hx as [->|Hx]; destruct Hy as [->|Hy]; auto.
  - exfalso. apply Hna. rewrite Hf. now apply in_map.
  - exfalso. apply Hna. rewrite <- Hf. now apply in_map.
Qed.

(** A map built without error: every entry was valid, no name came twice,
    and the map holds, under each name, the mesh of the entry so named. *)
Lemma build_index_inr (names : list Ascii.ascii) (nv : Z) :
  forall es idx index,
    MeshIndex.build_index names nv es idx = inr index ->
    Forall (MeshIndex.entry_ok names nv) es /\
    NoDup (map (MeshIndex.entry_name names) es) /\
    (forall e, In e es -> MeshIndex.find idx (MeshIndex.entry_name names e) = None) /\
    (forall n, MeshIndex.find index n
               = match List.find (fun e => String.eqb (MeshIndex.entry_name names e) n) es with
                 | Some e => Some (MeshIndex.entry_mesh e)
                 | None => MeshIndex.find idx n
                 end).
Proof.
  induction es as [|e es IH]; intros idx index H; cbn [MeshIndex.build_index] in H.
  - injection H as <-. repeat split; [constructor | constructor | intros e []].
  - destruct ((MeshIndex.name_begin e >? MeshIndex.name_end e)
              || (MeshIndex.name_end e >? Z.of_nat (length names))) eqn:E1; [discriminate|].
    destruct ((MeshIndex.vertex_begin e >? MeshIndex.vertex_end e)
              || (MeshIndex.vertex_end e >? nv)) eqn:E2; [discriminate|].
    destruct (MeshIndex.find idx (MeshIndex.entry_name names e)) as [m|] eqn:E3;
      [discriminate|].
    apply orb_false_iff in E1, E2. destruct E1 as [A1 A2]. destruct E2 as [B1 B2].
    destruct (IH _ _ H) as (I1 & I2 & I3 & I4).
    assert (Hfresh : forall e', In e' es ->
                                String.eqb (MeshIndex.entry_name names e)
                                           (MeshIndex.entry_name names e') = false /\
                                MeshIndex.find idx (MeshIndex.entry_name names e') = None).
    { intros e' He'. specialize (I3 e' He'). rewrite find_head in I3.
      destruct (String.eqb (MeshIndex.entry_name names e) (MeshIndex.entry_name names e'));
        [discriminate | now split]. }
    split; [|split; [|split]].
    + constructor; [|exact I1]. unfold MeshIndex.entry_ok. lia.
    + cbn [map]. constructor; [|exact I2]. intros Hin. apply in_map_iff in Hin.
      destruct Hin as (e' & He & Hin). destruct (Hfresh e' Hin) as [Hf _].
      rewrite He, String.eqb_refl in Hf. discriminate.
    + intros e' [<-|He']; [exact E3 | apply (Hfresh e' He')].
    + intros n. rewrite I4. cbn [List.find].
      destruct (String.eqb (MeshIndex.entry_name names e) n) eqn:En.
      * apply String.eqb_eq in En. subst n.
        destruct (List.find _ es) as [e'|] eqn:Ef.
        -- apply find_some in Ef. destruct Ef as [Hin He].
           destruct (Hfresh e' Hin) as [Hf _]. rewrite String.eqb_sym in Hf. congruence.
        -- rewrite find_head, String.eqb_refl. reflexivity.
      * destruct (List.find _ es); [reflexivity|]. rewrite find_head, En. reflexivity.
Qed.

Lemma build_index_ok (names : list Ascii.ascii) (nv : Z) :
  forall es idx,
    Forall (MeshIndex.entry_ok names nv) es ->
    NoDup (map (MeshIndex.entry_name names) es) ->
    (forall e, In e es -> MeshIndex.find idx (MeshIndex.entry_name names e) = None) ->
    exists index, MeshIndex.build_index names nv es idx = inr index.
Proof.
  induction es as [|e es IH]; intros idx Hok Hnd Hfresh; [now exists idx|].
  cbn [MeshIndex.build_index].
  apply Forall_cons_iff in Hok. destruct Hok as [[Hn Hv] Hok].
  cbn [map] in Hnd. apply NoDup_cons_iff in Hnd. destruct Hnd as [Hna Hnd].
  replace (MeshIndex.name_begin e >? MeshIndex.name_end e) with false by lia.
  replace (MeshIndex.name_end e >? Z.of_nat (length names)) with false by lia.
  replace (MeshIndex.vertex_begin e >? MeshIndex.vertex_end e) with false by lia.
  replace (MeshIndex.vertex_end e >? nv) with false by lia. cbn [orb].
  rewrite (Hfresh e (or_introl eq_refl)).
  apply IH; [exact Hok | exact Hnd |].
  intros e' He'. rewrite find_head.
  destruct (String.eqb (MeshIndex.entry_name names e) (MeshIndex.entry_name names e')) eqn:E.
  - apply String.eqb_eq in E. exfalso. apply Hna. rewrite E. now apply in_map.
  - apply Hfresh. now right.
Qed.

(** X13.  The index is built without an exception exactly when every entry
    has [name_begin <= name_end <= names.size()] and
    [vertex_begin <= vertex_end <= vertices.size()] and no two entries have
    the same name. *)
Theorem build_index_succeeds_iff
        (names : list Ascii.ascii) (nv : Z) (es : list MeshIndex.IndexEntry) :
  (exists index, MeshIndex.build_index names nv es [] = inr index) <->
  Forall (MeshIndex.entry_ok names nv) es /\ NoDup (map (MeshIndex.entry_name names) es).
Proof.
  split.
  - intros (index & H). destruct (build_index_inr names nv es [] index H) as (A & B & _).
    now split.
  - intros [A B]. apply build_index_ok; [exact A | exact B | reflexivity].
Qed.

(** X14.  In an index built without an exception, looking up the name of
    an entry finds the mesh of that entry, [first = vertex_begin] and
    [count = vertex_end - vertex_begin]; every mesh found belongs to an
    entry and lies inside the vertices: [first + count <= vertices.size()]. *)
Theorem index_lookup
        (names : list Ascii.ascii) (nv : Z) (es : list MeshIndex.IndexEntry)
        (index : MeshIndex.Index) :
  Forall MeshIndex.entry_uint32 es ->
  MeshIndex.build_index names nv es [] = inr index ->
  (forall e, In e es ->
             MeshIndex.find index (MeshIndex.entry_name names e)
             = Some (MeshIndex.mkMesh (MeshIndex.vertex_begin e)
                                      (MeshIndex.vertex_end e - MeshIndex.vertex_begin e))) /\
  (forall n m, MeshIndex.find index n = Some m ->
               (exists e, In e es /\ n = MeshIndex.entry_name names e /\
                          m = MeshIndex.entry_mesh e) /\
               0 <= MeshIndex.first m /\ 0 <= MeshIndex.count m /\
               MeshIndex.first m + MeshIndex.count m <= nv).
Proof.
  intros Hu H. destruct (build_index_inr names nv es [] index H) as (Hok & Hnd & _ & Hf).
  rewrite Forall_forall in Hu, Hok.
  assert (Hmesh : forall e, In e es ->
                            MeshIndex.entry_mesh e
                            = MeshIndex.mkMesh (MeshIndex.vertex_begin e)
                                (MeshIndex.vertex_end e - MeshIndex.vertex_begin e)).
  { intros e He. destruct (Hu e He) as (_ & _ & U3 & U4). destruct (Hok e He) as [_ V].
    unfold MeshIndex.entry_mesh. f_equal. apply Z.mod_small. lia. }
  split.
  - intros e He. rewrite Hf.
    destruct (List.find _ es) as [e'|] eqn:Ef.
    + apply find_some in Ef. destruct Ef as [Hin Hn]. apply String.eqb_eq in Hn.
      rewrite (NoDup_map_same _ es e' e Hnd Hin He Hn). now rewrite Hmesh.
    + exfalso. apply (find_none _ _ Ef) in He. now rewrite String.eqb_refl in He.
  - intros n m Hm. rewrite Hf in Hm.
    destruct (List.find _ es) as [e|] eqn:Ef; [|discriminate].
    apply find_some in Ef. destruct Ef as [Hin Hn]. apply String.eqb_eq in Hn.
    injection Hm as <-. split; [exists e; auto|].
    rewrite (Hmesh e Hin). cbn. destruct (Hu e Hin) as (_ & _ & U3 & U4).
    destruct (Hok e Hin) as [_ V]. lia.
Qed.

Lemma index_lookup_witness :
  exists index,
    MeshIndex.build_index MeshIndex.sample_names 96 MeshIndex.sample_entries [] = inr index /\
    MeshIndex.find index MeshIndex.name_star = Some (MeshIndex.mkMesh 30 30).
Proof.
  eexists. split; [reflexivity|].
  assert (Hu : Forall MeshIndex.entry_uint32 MeshIndex.sample_entries).
  { repeat constructor; cbn; lia. }
  destruct (index_lookup MeshIndex.sample_names 96 MeshIndex.sample_entries _ Hu eq_refl)
    as (H1 & _).
  exact (H1 (MeshIndex.mkIndexEntry 9 13 30 60) ltac:(cbn; tauto)).
Defined.

Lemma index_find_iff (names : list Ascii.ascii) (nv : Z) (es : list MeshIndex.IndexEntry)
      (index : MeshIndex.Index) (n : String.string) :
  MeshIndex.build_index names nv es [] = inr index ->
  (MeshIndex.find index n = None <-> ~ In n (map (MeshIndex.entry_name names) es)) /\
  (forall m, MeshIndex.find index n = Some m <->
             exists e, In e es /\ MeshIndex.entry_name names e = n /\
                       m = MeshIndex.entry_mesh e).
Proof.
  intros H. destruct (build_index_inr names nv es [] index H) as (_ & Hnd & _ & Hf).
  rewrite Hf. cbn [MeshIndex.find].
  destruct (List.find _ es) as [e|] eqn:Ef.
  - apply find_some in Ef. destruct Ef as [Hin Hn]. apply String.eqb_eq in Hn. split.
    + split; [discriminate|]. intros Hno. exfalso. apply Hno. rewrite <- Hn.
      now apply in_map.
    + intros m. split.
      * intros Hm. injection Hm as <-. now exists e.
      * intros (e' & Hin' & Hn' & ->).
        now rewrite (NoDup_map_same _ es e e' Hnd Hin Hin' ltac:(congruence)).
  - split.
    + split; [|reflexivity]. intros _ Hin. apply in_map_iff in Hin.
      destruct Hin as (e & He & Hin). apply (find_none _ _ Ef) in Hin.
      now rewrite He, String.eqb_refl in Hin.
    + intros m. split; [discriminate|]. intros (e & Hin & He & _).
      apply (find_none _ _ Ef) in Hin. now rewrite He, String.eqb_refl in Hin.
Qed.

Lemma build_index_inl (names : list Ascii.ascii) (nv : Z) :
  forall es idx err,
    MeshIndex.build_index names nv es idx = inl err ->
    exists es1 e es2 idx1,
      es = es1 ++ e :: es2 /\
      MeshIndex.build_index names nv es1 idx = inr idx1 /\
      match err with
      | MeshIndex.invalid_name_indices =>
          MeshIndex.name_begin e > MeshIndex.name_end e \/
          MeshIndex.name_end e > Z.of_nat (length names)
      | MeshIndex.invalid_vertex_indices =>
          MeshIndex.name_begin e <= MeshIndex.name_end e <= Z.of_nat (length names) /\
          (MeshIndex.vertex_begin e > MeshIndex.vertex_end e \/ MeshIndex.vertex_end e > nv)
      | MeshIndex.duplicate_name =>
          MeshIndex.entry_ok names nv e /\
          MeshIndex.find idx1 (MeshIndex.entry_name names e) <> None
      | MeshIndex.mesh_missing _ => False
      end.
Proof.
  induction es as [|e es IH]; intros idx err H; cbn [MeshIndex.build_index] in H;
    [discriminate|].
  destruct ((MeshIndex.name_begin e >? MeshIndex.name_end e)
            || (MeshIndex.name_end e >? Z.of_nat (length names))) eqn:E1.
  { injection H as <-. exists [], e, es, idx. split; [reflexivity|]. split; [reflexivity|].
    apply orb_true_iff in E1. lia. }
  apply orb_false_iff in E1. destruct E1 as [A1 A2].
  destruct ((MeshIndex.vertex_begin e >? MeshIndex.vertex_end e)
            || (MeshIndex.vertex_end e >? nv)) eqn:E2.
  { injection H as <-. exists [], e, es, idx. split; [reflexivity|]. split; [reflexivity|].
    apply orb_true_iff in E2. lia. }
  apply orb_false_iff in E2. destruct E2 as [B1 B2].
  destruct (MeshIndex.find idx (MeshIndex.entry_name names e)) as [m|] eqn:E3.
  { injection H as <-. exists [], e, es, idx. split; [reflexivity|]. split; [reflexivity|].
    split; [unfold MeshIndex.entry_ok; lia | congruence]. }
  destruct (IH _ _ H) as (es1 & e' & es2 & idx1 & -> & Hb & Hfail).
  exists (e :: es1), e', es2, idx1. split; [reflexivity|]. split; [|exact Hfail].
  cbn [MeshIndex.build_index].
  replace (MeshIndex.name_begin e >? MeshIndex.name_end e) with false by lia.
  replace (MeshIndex.name_end e >? Z.of_nat (length names)) with false by lia.
  replace (MeshIndex.vertex_begin e >? MeshIndex.vertex_end e) with false by lia.
  replace (MeshIndex.vertex_end e >? nv) with false by lia. cbn [orb].
  rewrite E3. exact Hb.
Qed.

(** X15.  When building the index throws, the exception is that of the
    first entry that fails, all entries before it being valid and of
    different names: "invalid name indices" if its name range is wrong,
    else "invalid vertex indices" if its vertex range is wrong, else
    "duplicate name" if an earlier entry has its name. *)
Theorem build_index_first_failure
        (names : list Ascii.ascii) (nv : Z) (es : list MeshIndex.IndexEntry)
        (err : MeshIndex.LoadError) :
  MeshIndex.build_index names nv es [] = inl err ->
  exists es1 e es2,
    es = es1 ++ e :: es2 /\
    Forall (MeshIndex.entry_ok names nv) es1 /\
    NoDup (map (MeshIndex.entry_name names) es1) /\
    match err with
    | MeshIndex.invalid_name_indices =>
        MeshIndex.name_begin e > MeshIndex.name_end e \/
        MeshIndex.name_end e > Z.of_nat (length names)
    | MeshIndex.invalid_vertex_indices =>
        MeshIndex.name_begin e <= MeshIndex.name_end e <= Z.of_nat (length names) /\
        (MeshIndex.vertex_begin e > MeshIndex.vertex_end e \/ MeshIndex.vertex_end e > nv)
    | MeshIndex.duplicate_name =>
        MeshIndex.entry_ok names nv e /\
        In (MeshIndex.entry_name names e) (map (MeshIndex.entry_name names) es1)
    | MeshIndex.mesh_missing _ => False
    end.
Proof.
  intros H. destruct (build_index_inl names nv es [] err H)
    as (es1 & e & es2 & idx1 & -> & Hb & Hfail).
  exists es1, e, es2. split; [reflexivity|].
  destruct (build_index_inr names nv es1 [] idx1 Hb) as (Hok & Hnd & _).
  split; [exact Hok|]. split; [exact Hnd|].
  destruct err; try exact Hfail.
  destruct Hfail as [He Hf]. split; [exact He|].
  destruct (index_find_iff names nv es1 idx1 (MeshIndex.entry_name names e) Hb) as [Hn _].
  destruct (in_dec String.string_dec (MeshIndex.entry_name names e)
                   (map (MeshIndex.entry_name names) es1)) as [Hin|Hnin]; [exact Hin|].
  exfalso. apply Hf. now apply Hn.
Qed.

Lemma build_index_first_failure_witness :
  MeshIndex.build_index MeshIndex.sample_names 96 MeshIndex.sample_entries_twice []
  = inl MeshIndex.duplicate_name /\
  exists es1 e es2,
    MeshIndex.sample_entries_twice = es1 ++ e :: es2 /\
    In (MeshIndex.entry_name MeshIndex.sample_names e)
       (map (MeshIndex.entry_name MeshIndex.sample_names) es1).
Proof.
  split; [reflexivity|].
  destruct (build_index_first_failure MeshIndex.sample_names 96
              MeshIndex.sample_entries_twice MeshIndex.duplicate_name eq_refl)
    as (es1 & e & es2 & H1 & _ & _ & _ & H4).
  exists es1, e, es2. split; [exact H1 | exact H4].
Defined.

(** X16.  The four meshes are loaded without an exception exactly when the
    index is (every entry valid, no name twice) and it has entries named
    "Plane", "Ship", "Star" and "Brick"; each mesh loaded is then the one of
    the entry of that name, and [mesh_array] holds the ship, the star and
    the brick in this order. *)
Theorem load_meshes_succeeds_iff
        (names : list Ascii.ascii) (nv : Z) (es : list MeshIndex.IndexEntry) :
  ((exists ms, MeshIndex.load_meshes names nv es = inr ms) <->
   Forall (MeshIndex.entry_ok names nv) es /\
   NoDup (map (MeshIndex.entry_name names) es) /\
   forall n, In n [MeshIndex.name_plane; MeshIndex.name_ship;
                   MeshIndex.name_star; MeshIndex.name_brick] ->
             In n (map (MeshIndex.entry_name names) es)) /\
  (forall ms, MeshIndex.load_meshes names nv es = inr ms ->
     exists ep es' et eb,
       (In ep es /\ In es' es /\ In et es /\ In eb es) /\
       (MeshIndex.entry_name names ep = MeshIndex.name_plane /\
        MeshIndex.entry_name names es' = MeshIndex.name_ship /\
        MeshIndex.entry_name names et = MeshIndex.name_star /\
        MeshIndex.entry_name names eb = MeshIndex.name_brick) /\
       MeshIndex.tile_mesh ms = MeshIndex.entry_mesh ep /\
       MeshIndex.mesh_array ms
       = [MeshIndex.entry_mesh es'; MeshIndex.entry_mesh et; MeshIndex.entry_mesh eb]).
Proof.
  unfold MeshIndex.load_meshes, MeshIndex.lookup.
  destruct (MeshIndex.build_index names nv es []) as [err|index] eqn:Hb.
  - split.
    + split; [intros (ms & H); discriminate|]. intros (Hok & Hnd & _).
      destruct (build_index_ok names nv es [] Hok Hnd ltac:(reflexivity)) as (index & Hi).
      congruence.
    + intros ms H. discriminate.
  - destruct (build_index_inr names nv es [] index Hb) as (Hok & Hnd & _).
    pose proof (fun n => index_find_iff names nv es index n Hb) as Hfind.
    split.
    + split.
      * intros (ms & H). split; [exact Hok|]. split; [exact Hnd|].
        intros n Hn.
        destruct (in_dec String.string_dec n (map (MeshIndex.entry_name names) es))
          as [Hin|Hnin]; [exact Hin|].
        apply (proj1 (Hfind n)) in Hnin. exfalso.
        cbn [In] in Hn. destruct Hn as [<-|[<-|[<-|[<-|[]]]]]; rewrite Hnin in H;
          repeat match type of H with
                 | match ?x with _ => _ end = _ => destruct x
                 end; discriminate.
      * intros (_ & _ & Hall).
        assert (Hsome : forall n, In n [MeshIndex.name_plane; MeshIndex.name_ship;
                                        MeshIndex.name_star; MeshIndex.name_brick] ->
                                  exists m, MeshIndex.find index n = Some m).
        { intros n Hn. destruct (MeshIndex.find index n) as [m|] eqn:E; [now exists m|].
          apply (proj1 (Hfind n)) in E. exfalso. apply E. now apply Hall. }
        destruct (Hsome MeshIndex.name_plane ltac:(cbn; tauto)) as (m1 & ->).
        destruct (Hsome MeshIndex.name_ship ltac:(cbn; tauto)) as (m2 & ->).
        destruct (Hsome MeshIndex.name_star ltac:(cbn; tauto)) as (m3 & ->).
        destruct (Hsome MeshIndex.name_brick ltac:(cbn; tauto)) as (m4 & ->).
        eexists. reflexivity.
    + intros ms H.
      destruct (MeshIndex.find index MeshIndex.name_plane) as [m1|] eqn:E1; [|discriminate].
      destruct (MeshIndex.find index MeshIndex.name_ship) as [m2|] eqn:E2; [|discriminate].
      destruct (MeshIndex.find index MeshIndex.name_star) as [m3|] eqn:E3; [|discriminate].
      destruct (MeshIndex.find index MeshIndex.name_brick) as [m4|] eqn:E4; [|discriminate].
      injection H as <-.
      apply (proj2 (Hfind _)) in E1, E2, E3, E4.
      destruct E1 as (e1 & I1 & N1 & ->). destruct E2 as (e2 & I2 & N2 & ->).
      destruct E3 as (e3 & I3 & N3 & ->). destruct E4 as (e4 & I4 & N4 & ->).
      exists e1, e2, e3, e4. repeat split; assumption.
Qed.

(** X17.  When loading the meshes throws after the index was built, the
    exception names the first of "Plane", "Ship", "Star", "Brick" that no
    entry of the index has. *)
Theorem load_meshes_missing
        (names : list Ascii.ascii) (nv : Z) (es : list MeshIndex.IndexEntry)
        (index : MeshIndex.Index) (err : MeshIndex.LoadError) :
  MeshIndex.build_index names nv es [] = inr index ->
  MeshIndex.load_meshes names nv es = inl err ->
  exists before n after,
    [MeshIndex.name_plane; MeshIndex.name_ship; MeshIndex.name_star; MeshIndex.name_brick]
    = before ++ n :: after /\
    err = MeshIndex.mesh_missing n /\
    ~ In n (map (MeshIndex.entry_name names) es) /\
    forall n', In n' before -> In n' (map (MeshIndex.entry_name names) es).
Proof.
  intros Hb H. unfold MeshIndex.load_meshes, MeshIndex.lookup in H. rewrite Hb in H.
  pose proof (fun n => index_find_iff names nv es index n Hb) as Hfind.
  assert (Hin : forall n m, MeshIndex.find index n = Some m ->
                            In n (map (MeshIndex.entry_name names) es)).
  { intros n m Hm. apply (proj2 (Hfind n)) in Hm. destruct Hm as (e & He & <- & _).
    now apply in_map. }
  destruct (MeshIndex.find index MeshIndex.name_plane) as [m1|] eqn:E1.
  2:{ injection H as <-. exists []. eexists. eexists.
      split; [reflexivity|]. split; [reflexivity|].
      split; [now apply (proj1 (Hfind _)) | intros n' []]. }
  destruct (MeshIndex.find index MeshIndex.name_ship) as [m2|] eqn:E2.
  2:{ injection H as <-. exists [MeshIndex.name_plane]. eexists. eexists.
      split; [reflexivity|]. split; [reflexivity|].
      split; [now apply (proj1 (Hfind _))|].
      intros n' [<-|[]]. exact (Hin _ _ E1). }
  destruct (MeshIndex.find index MeshIndex.name_star) as [m3|] eqn:E3.
  2:{ injection H as <-.
      exists [MeshIndex.name_plane; MeshIndex.name_ship]. eexists. eexists.
      split; [reflexivity|]. split; [reflexivity|].
      split; [now apply (proj1 (Hfind _))|].
      intros n' [<-|[<-|[]]]; [exact (Hin _ _ E1) | exact (Hin _ _ E2)]. }
  destruct (MeshIndex.find index MeshIndex.name_brick) as [m4|] eqn:E4; [discriminate|].
  injection H as <-.
  exists [MeshIndex.name_plane; MeshIndex.name_ship; MeshIndex.name_star],
         MeshIndex.name_brick, [].
  split; [reflexivity|]. split; [reflexivity|].
  split; [now apply (proj1 (Hfind _))|].
  intros n' [<-|[<-|[<-|[]]]];
    [exact (Hin _ _ E1) | exact (Hin _ _ E2) | exact (Hin _ _ E3)].
Qed.

Lemma load_meshes_missing_witness :
  MeshIndex.load_meshes MeshIndex.sample_names 96 MeshIndex.sample_entries_short
  = inl (MeshIndex.mesh_missing MeshIndex.name_brick) /\
  exists before n after,
    [MeshIndex.name_plane; MeshIndex.name_ship; MeshIndex.name_star; MeshIndex.name_brick]
    = before ++ n :: after /\
    ~ In n (map (MeshIndex.entry_name MeshIndex.sample_names) MeshIndex.sample_entries_short).
Proof.
  split; [reflexivity|].
  destruct (load_meshes_missing MeshIndex.sample_names 96 MeshIndex.sample_entries_short
              _ _ eq_refl eq_refl) as (before & n & after & H1 & _ & H3 & _).
  exists before, n, after. split; [exact H1 | exact H3].
Defined.

(** ** From the index to the calls *)

Lemma found_mesh_in_bounds
      (names : list Ascii.ascii) (nv : Z) (es : list MeshIndex.IndexEntry)
      (index : MeshIndex.Index) (n : String.string) (m : MeshIndex.Mesh) :
  Forall MeshIndex.entry_uint32 es ->
  MeshIndex.build_index names nv es [] = inr index ->
  MeshIndex.find index n = Some m ->
  0 <= MeshIndex.first m /\ 0 <= MeshIndex.count m /\
  MeshIndex.first m + MeshIndex.count m <= nv.
Proof.
  intros Hu Hb Hm.
  destruct (build_index_inr names nv es [] index Hb) as (Hok & _).
  apply (proj2 (index_find_iff names nv es index n Hb)) in Hm.
  destruct Hm as (e & He & _ & ->).
  rewrite Forall_forall in Hu, Hok.
  destruct (Hu e He) as (_ & _ & U3 & U4). destruct (Hok e He) as [_ V].
  unfold MeshIndex.entry_mesh. cbn [MeshIndex.first MeshIndex.count].
  rewrite Z.mod_small by lia. lia.
Qed.

(** X18.  With the meshes loaded from an index of [uint32_t] entries, every
    call [draw] makes, on any object on which it stays inside
    [mesh_array], hands over a range of vertices that lies inside the
    vertex buffer: [0 <= first], [0 <= count] and
    [first + count <= vertices.size()]. *)
Theorem drawn_meshes_in_buffer
        (names : list Ascii.ascii) (nv : Z) (es : list MeshIndex.IndexEntry)
        (ms : MeshIndex.Meshes) (g : Game) (calls : list DrawCall) :
  Forall MeshIndex.entry_uint32 es ->
  MeshIndex.load_meshes names nv es = inr ms ->
  draw ms g = Some calls ->
  forall c, In c calls ->
            0 <= MeshIndex.first (call_mesh c) /\ 0 <= MeshIndex.count (call_mesh c) /\
            MeshIndex.first (call_mesh c) + MeshIndex.count (call_mesh c) <= nv.
Proof.
  intros Hu Hl Hd.
  assert (Hfour : forall m, In m [MeshIndex.tile_mesh ms; MeshIndex.ship_mesh ms;
                                  MeshIndex.star_mesh ms; MeshIndex.brick_mesh ms] ->
                            0 <= MeshIndex.first m /\ 0 <= MeshIndex.count m /\
                            MeshIndex.first m + MeshIndex.count m <= nv).
  { unfold MeshIndex.load_meshes, MeshIndex.lookup in Hl.
    destruct (MeshIndex.build_index names nv es []) as [err|index] eqn:Hb; [discriminate|].
    destruct (MeshIndex.find index MeshIndex.name_plane) as [m1|] eqn:E1; [|discriminate].
    destruct (MeshIndex.find index MeshIndex.name_ship) as [m2|] eqn:E2; [|discriminate].
    destruct (MeshIndex.find index MeshIndex.name_star) as [m3|] eqn:E3; [|discriminate].
    destruct (MeshIndex.find index MeshIndex.name_brick) as [m4|] eqn:E4; [|discriminate].
    injection Hl as <-. cbn [MeshIndex.tile_mesh MeshIndex.ship_mesh MeshIndex.star_mesh
                             MeshIndex.brick_mesh In].
    intros m [<-|[<-|[<-|[<-|[]]]]];
      eapply (found_mesh_in_bounds names nv es index); eassumption. }
  destruct (draw_in_bounds_cells ms g) as [H1 H2].
  rewrite (H1 (H2 calls Hd)) in Hd. injection Hd as <-.
  intros c Hc. apply Hfour. cbn [In] in Hc |- *.
  rewrite !in_app_iff, !in_map_iff, cell_calls_in in Hc.
  destruct Hc as [<-|[(x & y & m & -> & _ & _ & _ & Hm)|[(i & <- & _)|(i & <- & _)]]];
    cbn [call_mesh]; try tauto.
  apply mesh_at_some in Hm. destruct Hm as [[_ ->]|[[_ ->]|[_ ->]]]; tauto.
Qed.

Lemma drawn_meshes_in_buffer_witness :
  exists calls,
    draw MeshIndex.sample_meshes sample_idle = Some calls /\
    forall c, In c calls ->
              MeshIndex.first (call_mesh c) + MeshIndex.count (call_mesh c) <= 96.
Proof.
  eexists. split; [reflexivity|].
  assert (Hu : Forall MeshIndex.entry_uint32 MeshIndex.sample_entries).
  { repeat constructor; cbn; lia. }
  intros c Hc.
  apply (drawn_meshes_in_buffer MeshIndex.sample_names 96 MeshIndex.sample_entries
           MeshIndex.sample_meshes sample_idle _ Hu eq_refl eq_refl c Hc).
Defined.
